(** * Voltura Captcha: the challenge lifecycle engine

    A shallow embedding of the puzzle generator ([captcha.js]) and of the
    server that stores, validates and rate-limits challenges (the two
    server variants of the repository share the code modelled here; where
    they differ the fuller variant is followed and the difference noted).

    Conventions.
    - JavaScript numbers that hold integers are [Z]; the few fractional
      quantities ([Math.random()], the quotient of the algebra puzzle) are
      exact rationals [Q], so rounding of doubles is abstracted.
    - Strings are [string], one character per code unit.  Request strings
      are ASCII; the two non-ASCII characters of the source (the
      multiplication sign and the zero-width space U+200B) are written as
      their UTF-8 bytes, which only concerns the rendering of a question.
    - [Math.random()] is an oracle [random : nat -> Q] read through a
      counter; its contract [0 <= random i < 1] is a hypothesis where a
      result needs it.
    - [Date.now()] is an argument of the operation that reads the clock.
    - A [Map] keyed by strings is a [gmap string _]. Objects stored in a
      map are only referenced from it, and handlers run to completion, so
      a mutation of a stored object is an update of the map at its key. *)

From stdpp Require Import gmap strings list fin_maps pretty.
From Stdlib Require Import Ascii QArith Qround.

Open Scope string_scope.
Open Scope Z_scope.

(** ** JavaScript values and coercions *)

Module Js.

(** The values a JSON body or a parsed query string can put in a field.
    [JsNumber] holds the integer-valued numbers of magnitude below 10^21
    (those [String] renders in plain decimal); [JsObject s] is any object
    or array, known by the string [s] it coerces to. *)
Inductive JsValue :=
| JsUndefined
| JsNull
| JsBool (b : bool)
| JsNumber (n : Z)
| JsString (s : string)
| JsObject (str : string).

#[global] Instance JsValue_eq_dec : EqDecision JsValue.
Proof. solve_decision. Defined.

(** [!v] is [negb (truthy v)]. *)
Definition truthy (v : JsValue) : bool :=
  match v with
  | JsUndefined | JsNull => false
  | JsBool b => b
  | JsNumber n => negb (n =? 0)
  | JsString s => negb (String.eqb s "")
  | JsObject _ => true
  end.

(** [String(v)], as template literals and [parseInt] apply it. *)
Definition ToString (v : JsValue) : string :=
  match v with
  | JsUndefined => "undefined"
  | JsNull => "null"
  | JsBool true => "true"
  | JsBool false => "false"
  | JsNumber n => pretty n
  | JsString s => s
  | JsObject s => s
  end.

Definition code (c : ascii) : Z := Z.of_nat (nat_of_ascii c).

(** White space and line terminators that [parseInt] skips (ASCII part). *)
Definition isStrWhiteSpace (c : ascii) : bool :=
  let n := code c in
  (n =? 9) || (n =? 10) || (n =? 11) || (n =? 12) || (n =? 13) || (n =? 32).

Fixpoint trimStart (s : string) : string :=
  match s with
  | String c r => if isStrWhiteSpace c then trimStart r else s
  | EmptyString => s
  end.

(** Value of [c] as a digit of radix [R] (10 or 16), if it is one. *)
Definition digitValue (R : Z) (c : ascii) : option Z :=
  let n := code c in
  if (48 <=? n) && (n <=? 57) then Some (n - 48)
  else if (R =? 16) && (97 <=? n) && (n <=? 102) then Some (n - 87)
  else if (R =? 16) && (65 <=? n) && (n <=? 70) then Some (n - 55)
  else None.

(** The longest prefix of radix-[R] digits, as a number; [acc] is [None]
    until a digit has been read. *)
Fixpoint parseDigits (R : Z) (s : string) (acc : option Z) : option Z :=
  match s with
  | String c r =>
      match digitValue R c with
      | Some d => parseDigits R r (Some (default 0 acc * R + d))
      | None => acc
      end
  | EmptyString => acc
  end.

(** [parseInt(s)] with no radix; [None] is NaN. *)
Definition parseIntString (s : string) : option Z :=
  let S0 := trimStart s in
  let '(sign, S1) :=
    match S0 with
    | String "-" r => (-1, r)
    | String "+" r => (1, r)
    | _ => (1, S0)
    end in
  let '(R, S2) :=
    match S1 with
    | String "0" (String "x" r) => (16, r)
    | String "0" (String "X" r) => (16, r)
    | _ => (10, S1)
    end in
  (fun m => sign * m) <$> parseDigits R S2 None.

Definition parseInt (v : JsValue) : option Z := parseIntString (ToString v).

(** [typeof v === 'string' && v.length > n] *)
Definition stringLongerThan (v : JsValue) (n : Z) : bool :=
  match v with
  | JsString s => n <? Z.of_nat (String.length s)
  | _ => false
  end.

(** [arr.includes(v)] for an array of strings (SameValueZero). *)
Definition includes (arr : list string) (v : JsValue) : bool :=
  match v with
  | JsString s => bool_decide (s ∈ arr)
  | _ => false
  end.

(** [arr[i]] for a number [i]; [None] is undefined. *)
Definition index {A} (arr : list A) (i : Z) : option A :=
  if i <? 0 then None else arr !! Z.to_nat i.

(** [arr.indexOf(s)]; [-1] when absent. *)
Fixpoint indexOf (arr : list string) (s : string) : Z :=
  match arr with
  | [] => -1
  | x :: r => if String.eqb x s then 0
              else let k := indexOf r s in if k <? 0 then -1 else k + 1
  end.

(** ASCII lower-casing, for case-insensitive matching. *)
Definition toLowerChar (c : ascii) : ascii :=
  let n := code c in
  if (65 <=? n) && (n <=? 90) then ascii_of_nat (Z.to_nat (n + 32)) else c.

Fixpoint toLowerCase (s : string) : string :=
  match s with
  | String c r => String (toLowerChar c) (toLowerCase r)
  | EmptyString => EmptyString
  end.

Fixpoint startsWith (p s : string) : bool :=
  match p, s with
  | EmptyString, _ => true
  | String a p', String b s' => Ascii.eqb a b && startsWith p' s'
  | String _ _, EmptyString => false
  end.

(** [s.includes(p)] *)
Fixpoint strIncludes (p s : string) : bool :=
  startsWith p s ||
  match s with
  | String _ r => strIncludes p r
  | EmptyString => false
  end.

(** [/p/i.test(s)] for a pattern [p] of literal lower-case characters. *)
Definition testCI (p s : string) : bool := strIncludes p (toLowerCase s).

(** [/p1|p2|.../i.test(s)] *)
Definition testAnyCI (ps : list string) (s : string) : bool :=
  existsb (fun p => testCI (toLowerCase p) s) ps.

Fixpoint drop_chars (n : nat) (s : string) : string :=
  match n, s with
  | O, _ => s
  | S n', String _ r => drop_chars n' r
  | S _, EmptyString => EmptyString
  end.

(** [s.replace(p, r)] for a string pattern: the first occurrence only.
    The replacements of this program are decimal numerals, which hold no
    [$] pattern. *)
Fixpoint replace (p r s : string) : string :=
  if startsWith p s then r ++ drop_chars (String.length p) s
  else match s with
       | String c s' => String c (replace p r s')
       | EmptyString => EmptyString
       end.

(** [Math.round] and [Math.ceil(a / b)] for integers [a] and [b > 0]. *)
Definition Math_round (x : Q) : Z := Qfloor (x + (1 # 2))%Q.
Definition ceilDiv (a b : Z) : Z := - ((- a) / b).

End Js.

(** ** The puzzle generator ([captcha.js]) *)

Module Captcha.
Import Js.

(** One entry of the [difficulties] table. *)
Record Config := { types : list string; range : Z * Z }.

Definition easy : Config :=
  {| types := ["addition"; "subtraction"]; range := (1, 10) |}.
Definition medium : Config :=
  {| types := ["addition"; "subtraction"; "multiplication"; "numberToText"];
     range := (1, 15) |}.
Definition hard : Config :=
  {| types := ["multiplication"; "simpleAlgebra"; "mixedOperations"; "wordProblem"];
     range := (1, 20) |}.
Definition extreme : Config :=
  {| types := ["complexAlgebra"; "multipleOperations"; "logicPuzzle"];
     range := (5, 30) |}.

(** [difficulties[difficulty]]; [None] is undefined.  Names inherited
    from [Object.prototype] are not modelled: the server only passes one
    of the four levels (see [Server.determineDifficulty_allowed]). *)
Definition difficulties (difficulty : string) : option Config :=
  if String.eqb difficulty "easy" then Some easy
  else if String.eqb difficulty "medium" then Some medium
  else if String.eqb difficulty "hard" then Some hard
  else if String.eqb difficulty "extreme" then Some extreme
  else None.

(** The object a generation returns.  A field that the returned object
    literal does not have is [None]. *)
Record Captcha := {
  question : string;
  answer : Z;
  type : option string;
  difficulty : option string
}.

(** [case 'name':] of a [switch] over a possibly undefined string. *)
Definition isCase (ty : option string) (name : string) : bool :=
  match ty with
  | Some s => String.eqb s name
  | None => false
  end.

(** Computations that read [Math.random()] and may throw: the state is
    the number of draws made so far, [None] is a thrown exception. *)
Definition M (A : Type) : Type := nat -> option (A * nat).

#[global] Instance M_ret : MRet M := fun A x i => Some (x, i).
#[global] Instance M_bind : MBind M := fun A B f m i =>
  match m i with
  | Some (a, j) => f a j
  | None => None
  end.
Definition throw {A} : M A := fun _ => None.

Definition Qltb (x y : Q) : bool := negb (Qle_bool y x).

Definition quote : string := String "034"%char EmptyString.
Definition zeroWidthSpace : string :=
  String "226"%char (String "128"%char (String "139"%char EmptyString)).

Definition ops : list string := ["+"; "-"; "*"].

(** [eval] of [`${num1} ${op} ${num2}`] for an operator of [ops]. *)
Definition evalOp (op : string) (num1 num2 : Z) : Z :=
  if String.eqb op "+" then num1 + num2
  else if String.eqb op "-" then num1 - num2
  else num1 * num2.

Definition problems : list (string * (Z -> Z -> Z)) :=
  [ ("If you have {a} apples and buy {b} more, how many do you have?",
     fun a b => a + b);
    ("A pizza has {a} slices. If you eat {b}, how many remain?",
     fun a b => a - b);
    ("There are {a} cars with {b} wheels each. Total wheels?",
     fun a b => a * b) ].

Definition puzzles : list (string * Z) :=
  [ ("What is the next number: 2, 4, 6, 8, ?", 10);
    ("If 3 cats catch 3 mice in 3 minutes, how many cats to catch 100 mice in 100 minutes?", 3) ].

Definition numbers : list string :=
  ["zero"; "one"; "two"; "three"; "four"; "five"; "six"; "seven"; "eight";
   "nine"; "ten"].

Definition distortions (difficulty : string) : option (list string) :=
  if String.eqb difficulty "easy" then Some ["spaces"]
  else if String.eqb difficulty "medium" then Some ["spaces"; "caps"]
  else if String.eqb difficulty "hard" then
    Some ["spaces"; "caps"; "punctuation"; "leetspeak"]
  else if String.eqb difficulty "extreme" then
    Some ["spaces"; "caps"; "punctuation"; "leetspeak"; "unicode"]
  else None.

(** [/[aeios]/i] on one character. *)
Definition isLeetChar (c : ascii) : bool :=
  bool_decide (toLowerChar c ∈ ["a"; "e"; "i"; "o"; "s"]%char).

(** [leetMap[c]] for a lower-case [c]. *)
Definition leetMap (c : ascii) : option string :=
  if Ascii.eqb c "a" then Some "4"
  else if Ascii.eqb c "e" then Some "3"
  else if Ascii.eqb c "i" then Some "1"
  else if Ascii.eqb c "o" then Some "0"
  else if Ascii.eqb c "s" then Some "5"
  else None.

Section Generator.

Variable random : nat -> Q.

Definition Math_random : M Q := fun i => Some (random i, S i).

(** [Math.floor(Math.random() * n)] *)
Definition randomBelow (n : Z) : M Z :=
  u ← Math_random; mret (Qfloor (u * inject_Z n)).

Definition randomInRange (r : Z * Z) : M Z :=
  let '(min, max) := r in
  k ← randomBelow (max - min + 1); mret (k + min).

(** The [leetspeak] case: one draw per matching character, left to
    right. *)
Fixpoint leetspeak (s : string) : M string :=
  match s with
  | EmptyString => mret EmptyString
  | String c r =>
      if isLeetChar c then
        u ← Math_random;
        let char := String c EmptyString in
        let out := if Qltb u (3 # 10)
                   then default char (leetMap (toLowerChar c)) else char in
        r' ← leetspeak r; mret (out ++ r')
      else
        r' ← leetspeak r; mret (String c r')
  end.

(** The [unicode] case: one draw per character. *)
Fixpoint unicode (s : string) : M string :=
  match s with
  | EmptyString => mret EmptyString
  | String c r =>
      u ← Math_random;
      let char := String c EmptyString in
      let out := if Qltb u (1 # 10) then char ++ zeroWidthSpace else char in
      r' ← unicode r; mret (out ++ r')
  end.

Fixpoint reduceDistortions (ds : list string) (result : string) : M string :=
  match ds with
  | [] => mret result
  | distortion :: ds' =>
      result' ← (if String.eqb distortion "leetspeak" then leetspeak result
                 else if String.eqb distortion "unicode" then unicode result
                 else mret result);
      reduceDistortions ds' result'
  end.

Definition applyDistortion (text difficulty : string) : M string :=
  let selectedDistortions :=
    default ["spaces"; "caps"] (distortions difficulty) in
  reduceDistortions selectedDistortions text.

Definition generateBasicCaptcha (ty : option string) (range : Z * Z)
  : M Captcha :=
  a ← randomInRange range;
  b ← randomInRange range;
  if isCase ty "addition" then
    mret {| question := "What is " ++ pretty a ++ " + " ++ pretty b ++ "?";
            answer := a + b; type := None; difficulty := None |}
  else if isCase ty "subtraction" then
    let x := Z.max a b in
    let y := Z.min a b in
    mret {| question := "What is " ++ pretty x ++ " - " ++ pretty y ++ "?";
            answer := x - y; type := None; difficulty := None |}
  else if isCase ty "multiplication" then
    mret {| question := "What is " ++ pretty a ++ " × " ++ pretty b ++ "?";
            answer := a * b; type := None; difficulty := None |}
  else if isCase ty "numberToText" then
    num ← randomInRange (0, 10);
    mret {| question := "Type the number: " ++ quote
                          ++ default "undefined" (index numbers num) ++ quote;
            answer := num; type := None; difficulty := None |}
  else
    mret {| question := "What is " ++ pretty a ++ " + " ++ pretty b ++ "?";
            answer := a + b; type := None; difficulty := None |}.

(** The statements after the [switch]: distort the question, round the
    answer, and return the full record. *)
Definition finish (difficulty : string) (ty : option string)
    (qa : string * Q) : M Captcha :=
  question' ← applyDistortion qa.1 difficulty;
  mret {| question := question'; answer := Math_round qa.2;
          type := ty; difficulty := Some difficulty |}.

(** [config.types[Math.floor(Math.random() * config.types.length)]] *)
Definition chooseType (config : Config) : M (option string) :=
  i ← randomBelow (Z.of_nat (List.length (types config)));
  mret (index (types config) i).

Definition generateCaptcha (difficulty : string) : M Captcha :=
  let config := default medium (difficulties difficulty) in
  ty ← chooseType config;
  if isCase ty "mixedOperations" then
    j ← randomBelow (Z.of_nat (List.length ops));
    let op := index ops j in
    num1 ← randomInRange (range config);
    num2 ← randomInRange (range config);
    match op with
    | Some op =>
        finish difficulty ty
          ("Calculate: " ++ pretty num1 ++ " " ++ op ++ " " ++ pretty num2,
           inject_Z (evalOp op num1 num2))
    | None => throw
    end
  else if isCase ty "wordProblem" then
    j ← randomBelow (Z.of_nat (List.length problems));
    let problem := index problems j in
    pA ← randomInRange (2, 10);
    pB ← randomInRange (2, 10);
    match problem with
    | Some (q, a) =>
        finish difficulty ty
          (replace "{b}" (pretty pB) (replace "{a}" (pretty pA) q),
           inject_Z (a pA pB))
    | None => throw
    end
  else if isCase ty "complexAlgebra" then
    coeff ← randomInRange (2, 5);
    constant ← randomInRange (1, 10);
    x ← randomInRange (3, 8);
    let result := coeff * x + constant in
    finish difficulty ty
      ("Solve for x: " ++ pretty coeff ++ "x + " ++ pretty constant
         ++ " = " ++ pretty result,
       (inject_Z (result - constant) / inject_Z coeff)%Q)
  else if isCase ty "logicPuzzle" then
    j ← randomBelow (Z.of_nat (List.length puzzles));
    match index puzzles j with
    | Some (q, a) => finish difficulty ty (q, inject_Z a)
    | None => throw
    end
  else
    generateBasicCaptcha ty (range config).

End Generator.

(** [validateCaptchaInput] *)
Definition validateCaptchaInput (input : JsValue) : bool :=
  match input with
  | JsNull | JsUndefined => false
  | _ =>
      match parseInt input with
      | Some num => (0 <=? num) && (num <=? 1000)
      | None => false
      end
  end.

(** The contract of [Math.random()]. *)
Definition unit_interval (random : nat -> Q) : Prop :=
  forall i, (0 <= random i)%Q /\ (random i < 1)%Q.

End Captcha.

(** ** The server: rate limiter, risk scorer, challenge store *)

Module Server.
Import Js.

(** *** Configuration *)

Record LimitConfig := { windowMs : Z; max : Z }.

Definition captchaGeneration : LimitConfig :=
  {| windowMs := 15 * 60 * 1000; max := 100 |}.
Definition captchaValidation : LimitConfig :=
  {| windowMs := 15 * 60 * 1000; max := 200 |}.
Definition general : LimitConfig :=
  {| windowMs := 15 * 60 * 1000; max := 500 |}.

(** [config.rateLimit[configKey]] for the three keys the limiter uses. *)
Definition rateLimit (configKey : string) : LimitConfig :=
  if String.eqb configKey "captchaGeneration" then captchaGeneration
  else if String.eqb configKey "captchaValidation" then captchaValidation
  else general.

Definition expiration : Z := 10 * 60 * 1000.
Definition maxAttempts : Z := 3.
Definition cleanupInterval : Z := 5 * 60 * 1000.
Definition maxAnswerLength : Z := 10.
Definition allowedDifficulties : list string :=
  ["easy"; "medium"; "hard"; "extreme"].

(** *** Requests *)

(** What the handlers read of a request.  A missing header, query
    parameter or body field is absent from its map. *)
Record Request := {
  ip : option string;
  remoteAddress : option string;
  path : string;
  headers : gmap string string;
  query : gmap string JsValue;
  body : gmap string JsValue
}.

(** [obj[name]] on a parsed query or body. *)
Definition prop (obj : gmap string JsValue) (name : string) : JsValue :=
  default JsUndefined (obj !! name).

(** [req.headers[name] || ''] *)
Definition header (req : Request) (name : string) : string :=
  default "" (headers req !! name).

(** [a || b] on optional strings: the empty string is falsy too. *)
Definition orElse (a : option string) (b : option string) : option string :=
  match a with
  | Some s => if String.eqb s "" then b else a
  | None => b
  end.

(** *** Rate limiter *)

Inductive RateOutcome :=
| TooManyRequests (retryAfter : option Z) (limit : Z) (window : string)
| Next (remaining : Z) (limit : Z) (reset : Z).

Definition configKeyOf (path : string) : string :=
  if String.eqb path "/api/captcha" then "captchaGeneration"
  else if String.eqb path "/api/validate-captcha" then "captchaValidation"
  else "general".

Definition rateKey (req : Request) : string :=
  let ip := default "unknown" (orElse (orElse (ip req) (remoteAddress req))
                                      (Some "unknown")) in
  ip ++ ":" ++ configKeyOf (path req).

(** [advancedRateLimit], with [now] the value of [Date.now()].  The array
    [requests] is the one stored under [key], so [requests.push(now)] is
    seen through the map. *)
Definition advancedRateLimit (req : Request) (now : Z)
    (requestCounts : gmap string (list Z))
  : RateOutcome * gmap string (list Z) :=
  let configKey := configKeyOf (path req) in
  let limitConfig := rateLimit configKey in
  let windowStart := now - windowMs limitConfig in
  let key := rateKey req in
  let requestCounts :=
    match requestCounts !! key with
    | Some _ => requestCounts
    | None => <[key := []]> requestCounts
    end in
  let requests :=
    filter (fun time => windowStart < time) (default [] (requestCounts !! key)) in
  let requestCounts := <[key := requests]> requestCounts in
  if max limitConfig <=? Z.of_nat (List.length requests) then
    (TooManyRequests
       ((fun first => ceilDiv (first + windowMs limitConfig - now) 1000)
          <$> head requests)
       (max limitConfig)
       (pretty (windowMs limitConfig / 60000) ++ " minutes"),
     requestCounts)
  else
    let requests := app requests [now] in
    (Next (max limitConfig - Z.of_nat (List.length requests))
          (max limitConfig)
          (default 0 (head requests) + windowMs limitConfig),
     <[key := requests]> requestCounts).

(** *** Risk scorer *)

Definition botPatterns : list string :=
  ["bot"; "crawl"; "spider"; "scrape"; "python"; "curl"; "wget"; "phantom";
   "headless"; "chrome-lighthouse"].

(** [botDetection]: the score and signals the middleware stores on the
    request.  The [finish] callback runs after the response is sent: it
    adds to its own copy of the score, which is not [req.botScore], and
    may append a signal to the array of signals, which no property below
    reads. The lighter server variant has neither the last pattern nor
    the accept check. *)
Definition botDetection (req : Request) : Z * list string :=
  let userAgent := header req "user-agent" in
  let accept := header req "accept" in
  let s0 : Z * list string :=
    if String.eqb userAgent "" then (10, ["missing-user-agent"]) else (0, []) in
  let s1 :=
    foldl (fun (acc : Z * list string) pattern =>
             if testCI pattern userAgent
             then (acc.1 + 5, app acc.2 ["bot-ua-" ++ pattern])
             else acc) s0 botPatterns in
  if negb (strIncludes "application/json" accept)
     && negb (strIncludes "text/html" accept)
  then (s1.1 + 3, app s1.2 ["suspicious-accept"])
  else s1.

(** [determineDifficulty(req, requestedDifficulty)], with [botScore] the
    value of [req.botScore]. *)
Definition determineDifficulty (req : Request) (botScore : Z)
    (requestedDifficulty : JsValue) : string :=
  if truthy requestedDifficulty
     && includes allowedDifficulties requestedDifficulty
  then ToString requestedDifficulty
  else
    let userAgent := header req "user-agent" in
    let isMobile := testAnyCI ["Mobi"; "Android"; "iPhone"; "iPad"] userAgent in
    let isTablet := testAnyCI ["Tablet"; "iPad"] userAgent in
    if isMobile then "easy"
    else if isTablet then "medium"
    else if 15 <? botScore then "hard"
    else if 25 <? botScore then "extreme"
    else "medium".

(** *** Challenge store *)

Record Context := {
  userAgent : option string;
  ctx_ip : option string;
  botScore : Z;
  botSignals : list string;
  requestedDifficulty : JsValue;
  determinedDifficulty : string
}.

Record LastValidation := {
  timestamp : Z;
  lv_valid : bool;
  userAnswer : JsValue;
  actualAnswer : Z
}.

Record CaptchaData := {
  answer : Z;
  createdAt : Z;
  expiresAt : Z;
  attempts : Z;
  difficulty : string;
  type : option string;
  context : Context;
  lastValidation : option LastValidation
}.

Definition set_attempts (n : Z) (d : CaptchaData) : CaptchaData :=
  {| answer := answer d; createdAt := createdAt d; expiresAt := expiresAt d;
     attempts := n; difficulty := difficulty d; type := type d;
     context := context d; lastValidation := lastValidation d |}.

Definition set_lastValidation (v : LastValidation) (d : CaptchaData)
  : CaptchaData :=
  {| answer := answer d; createdAt := createdAt d; expiresAt := expiresAt d;
     attempts := attempts d; difficulty := difficulty d; type := type d;
     context := context d; lastValidation := Some v |}.

(** A value used as a key of [captchaStore]: the keys are strings, and no
    other value is the same as one. *)
Definition lookupKey (captchaStore : gmap string CaptchaData) (k : JsValue)
  : option (string * CaptchaData) :=
  match k with
  | JsString id => (fun d => (id, d)) <$> captchaStore !! id
  | _ => None
  end.

(** *** GET /api/captcha *)

Inductive CaptchaResponse :=
| Generated (captchaId question : string) (type : option string)
            (difficulty : string) (expiresIn : string)
| GenerationFailed.

(** The handler, with [id] the value [uuid()] returns, [random] and
    [draws] the random source, [t1] and [t2] the two clock readings. A
    generator exception is caught: status 500, nothing stored. *)
Definition getCaptcha (req : Request) (id : string)
    (random : nat -> Q) (draws : nat) (t1 t2 : Z)
    (captchaStore : gmap string CaptchaData)
  : CaptchaResponse * gmap string CaptchaData * nat :=
  let requestedDifficulty := prop (query req) "difficulty" in
  let '(score, signals) := botDetection req in
  let contextDifficulty := determineDifficulty req score requestedDifficulty in
  match Captcha.generateCaptcha random contextDifficulty draws with
  | Some (c, draws') =>
      let data :=
        {| answer := Captcha.answer c;
           createdAt := t1;
           expiresAt := t2 + expiration;
           attempts := 0;
           difficulty := contextDifficulty;
           type := Captcha.type c;
           context :=
             {| userAgent := headers req !! "user-agent";
                ctx_ip := ip req;
                botScore := score;
                botSignals := signals;
                requestedDifficulty := requestedDifficulty;
                determinedDifficulty := contextDifficulty |};
           lastValidation := None |} in
      (Generated id (Captcha.question c) (Captcha.type c) contextDifficulty
                 (pretty (expiration / 60000) ++ " minutes"),
       <[id := data]> captchaStore, draws')
  | None => (GenerationFailed, captchaStore, draws)
  end.

(** *** POST /api/validate-captcha *)

Record ValidateResponse := {
  status : Z;
  success : bool;
  valid : bool;
  reason : option string;
  res_attempts : option Z;
  res_difficulty : option string
}.

Definition rejected (status : Z) (reason : string) : ValidateResponse :=
  {| status := status; success := false; valid := false;
     reason := Some reason; res_attempts := None; res_difficulty := None |}.

(** The handler, with [now1] the clock reading of the expiry check and
    [now2] that of the validation record. *)
Definition validateCaptcha (req : Request) (now1 now2 : Z)
    (captchaStore : gmap string CaptchaData)
  : ValidateResponse * gmap string CaptchaData :=
  let captchaId := prop (body req) "captchaId" in
  let answer_ := prop (body req) "answer" in
  if negb (truthy captchaId)
     || bool_decide (answer_ = JsUndefined) || bool_decide (answer_ = JsNull)
  then (rejected 400 "Missing captchaId or answer", captchaStore)
  else if stringLongerThan answer_ maxAnswerLength
  then (rejected 200 "Answer too long", captchaStore)
  else
    match lookupKey captchaStore captchaId with
    | None => (rejected 200 "Invalid or expired CAPTCHA", captchaStore)
    | Some (id, captchaData) =>
        if expiresAt captchaData <? now1 then
          (rejected 200 "CAPTCHA expired", delete id captchaStore)
        else
          let captchaData := set_attempts (attempts captchaData + 1) captchaData in
          let captchaStore := <[id := captchaData]> captchaStore in
          if maxAttempts <? attempts captchaData then
            (rejected 200 "Too many attempts", delete id captchaStore)
          else
            let userAnswer := parseInt answer_ in
            let isValid :=
              match userAnswer with
              | Some n => n =? answer captchaData
              | None => false
              end in
            let captchaData :=
              set_lastValidation
                {| timestamp := now2; lv_valid := isValid;
                   userAnswer := answer_;
                   actualAnswer := answer captchaData |} captchaData in
            let captchaStore := <[id := captchaData]> captchaStore in
            let captchaStore :=
              if isValid then delete id captchaStore
              else <[id := captchaData]> captchaStore in
            ({| status := 200; success := true; valid := isValid;
                reason := if isValid then None else Some "Wrong answer";
                res_attempts := Some (attempts captchaData);
                res_difficulty := Some (difficulty captchaData) |},
             captchaStore)
    end.

(** *** GET /api/captcha/fallback *)

Definition difficulties : list string := ["extreme"; "hard"; "medium"; "easy"].

(** The difficulty the handler puts in the redirect. *)
Definition fallbackDifficulty (previousDifficulty : JsValue) : string :=
  if truthy previousDifficulty && includes difficulties previousDifficulty
  then
    let currentIndex := indexOf difficulties (ToString previousDifficulty) in
    default "undefined"
      (index difficulties
         (Z.min (currentIndex + 1) (Z.of_nat (List.length difficulties) - 1)))
  else "easy".

(** The handler: the difficulty of the redirect to [/api/captcha] and the
    store after the clean-up of the previous challenge. The [reason]
    parameter only travels in the redirect and is left out. *)
Definition fallback (req : Request) (captchaStore : gmap string CaptchaData)
  : string * gmap string CaptchaData :=
  let previousDifficulty := prop (query req) "previousDifficulty" in
  let previousCaptchaId := prop (query req) "previousCaptchaId" in
  let captchaStore :=
    if truthy previousCaptchaId then
      match lookupKey captchaStore previousCaptchaId with
      | Some (id, _) => delete id captchaStore
      | None => captchaStore
      end
    else captchaStore in
  (fallbackDifficulty previousDifficulty, captchaStore).

(** *** Periodic clean-up *)

Definition cleanupCaptchas (now : Z) (captchaStore : gmap string CaptchaData)
  : gmap string CaptchaData :=
  filter (fun kv => ¬ (expiresAt kv.2 < now)) captchaStore.

Definition rateLimitCleanupWindow : Z := 24 * 60 * 60 * 1000.

Definition cleanupRequests (now : Z) (requestCounts : gmap string (list Z))
  : gmap string (list Z) :=
  omap (fun requests =>
          let validRequests :=
            filter (fun time => now - time < rateLimitCleanupWindow) requests in
          if bool_decide (List.length validRequests = 0%nat) then None
          else Some validRequests) requestCounts.

(** *** Runs of operations *)

(** The operations that touch the challenge store: a generation, a
    validation, the discard of the fallback route, and the timer's sweep,
    each with the inputs its handler reads. *)
Inductive Op :=
| Create (req : Request) (id : string) (random : nat -> Q) (draws : nat)
         (t1 t2 : Z)
| Validate (req : Request) (now1 now2 : Z)
| Discard (req : Request)
| Sweep (now : Z).

Definition run (captchaStore : gmap string CaptchaData) (op : Op)
  : gmap string CaptchaData :=
  match op with
  | Create req id random draws t1 t2 =>
      (getCaptcha req id random draws t1 t2 captchaStore).1.2
  | Validate req now1 now2 => (validateCaptcha req now1 now2 captchaStore).2
  | Discard req => (fallback req captchaStore).2
  | Sweep now => cleanupCaptchas now captchaStore
  end.

(** The store after a run of operations on the empty store of a fresh
    process. *)
Definition runAll (ops : list Op) : gmap string CaptchaData :=
  foldl run ∅ ops.

(** Successive validation calls, each with its two clock readings. *)
Fixpoint validateAll (calls : list (Request * Z * Z))
    (captchaStore : gmap string CaptchaData)
  : list ValidateResponse * gmap string CaptchaData :=
  match calls with
  | [] => ([], captchaStore)
  | (req, now1, now2) :: rest =>
      let '(res, captchaStore) := validateCaptcha req now1 now2 captchaStore in
      let '(ress, captchaStore) := validateAll rest captchaStore in
      (res :: ress, captchaStore)
  end.

(** Successive requests of one client to one endpoint class through the
    rate limiter, at the given clock readings. *)
Fixpoint checkAll (req : Request) (times : list Z)
    (requestCounts : gmap string (list Z))
  : list RateOutcome * gmap string (list Z) :=
  match times with
  | [] => ([], requestCounts)
  | now :: rest =>
      let '(out, requestCounts) := advancedRateLimit req now requestCounts in
      let '(outs, requestCounts) := checkAll req rest requestCounts in
      (out :: outs, requestCounts)
  end.

Definition allowed (out : RateOutcome) : bool :=
  match out with
  | Next _ _ _ => true
  | TooManyRequests _ _ _ => false
  end.

End Server.

(** ** Vocabulary of the specification *)

Module Spec.
Import Js Server.

(** Position of a difficulty in the fixed order
    easy < medium < hard < extreme. *)
Definition level (d : string) : option Z :=
  if String.eqb d "easy" then Some 0
  else if String.eqb d "medium" then Some 1
  else if String.eqb d "hard" then Some 2
  else if String.eqb d "extreme" then Some 3
  else None.

(** The level of a query value, when it names a difficulty. *)
Definition levelOf (v : JsValue) : option Z :=
  match v with
  | JsString s => level s
  | _ => None
  end.

(** A field that the request does not carry. *)
Definition absent (v : JsValue) : Prop := v = JsUndefined \/ v = JsNull.

(** The value a validation call submits. *)
Definition submitted (req : Request) : JsValue := prop (body req) "answer".

(** A validation attempt on the challenge [id]: the call names [id] and
    is not an input-shape error. *)
Definition attempt (req : Request) (id : string) : bool :=
  bool_decide (prop (body req) "captchaId" = JsString id)
  && negb (String.eqb id "")
  && negb (bool_decide (submitted req = JsUndefined))
  && negb (bool_decide (submitted req = JsNull))
  && negb (stringLongerThan (submitted req) maxAnswerLength).

(** The submitted value reads as the stored answer. *)
Definition correct (req : Request) (d : CaptchaData) : bool :=
  bool_decide (parseInt (submitted req) = Some (answer d)).

(** An attempt on [id] with a wrong answer, made before [d] expires. *)
Definition wrongAttempt (id : string) (d : CaptchaData)
    (call : Request * Z * Z) : bool :=
  attempt call.1.1 id && (call.1.2 <=? expiresAt d) && negb (correct call.1.1 d).

(** The answer to a wrong attempt that leaves the count at [n]. *)
Definition wrongAnswer (res : ValidateResponse) (n : Z) : Prop :=
  status res = 200 /\ valid res = false /\ reason res = Some "Wrong answer"
  /\ res_attempts res = Some n.

(** The instant [t] lies in the window of length [width] that opens
    after [start]. *)
Definition inWindow (start width : Z) (t : Z) : bool :=
  (start <? t) && (t <=? start + width).

(** Every stored challenge is within the attempt limit. *)
Definition bounded (captchaStore : gmap string CaptchaData) : Prop :=
  map_Forall (fun _ d => attempts d <= maxAttempts) captchaStore.

(** The puzzles of the generator, each with the operands its question
    shows. *)
Inductive Puzzle :=
| Addition (a b : Z)
| Subtraction (x y : Z)
| Multiplication (a b : Z)
| NumberToText (word : string)
| MixedOperations (op : string) (num1 num2 : Z)
| ApplesBought (a b : Z)
| SlicesLeft (a b : Z)
| WheelsInTotal (a b : Z)
| Algebra (coeff constant result : Z)
| NextNumber
| CatsAndMice.

(** The question as rendered before any distortion. *)
Definition render (p : Puzzle) : string :=
  match p with
  | Addition a b => "What is " ++ pretty a ++ " + " ++ pretty b ++ "?"
  | Subtraction x y => "What is " ++ pretty x ++ " - " ++ pretty y ++ "?"
  | Multiplication a b => "What is " ++ pretty a ++ " × " ++ pretty b ++ "?"
  | NumberToText word =>
      "Type the number: " ++ Captcha.quote ++ word ++ Captcha.quote
  | MixedOperations op num1 num2 =>
      "Calculate: " ++ pretty num1 ++ " " ++ op ++ " " ++ pretty num2
  | ApplesBought a b =>
      "If you have " ++ pretty a ++ " apples and buy " ++ pretty b
        ++ " more, how many do you have?"
  | SlicesLeft a b =>
      "A pizza has " ++ pretty a ++ " slices. If you eat " ++ pretty b
        ++ ", how many remain?"
  | WheelsInTotal a b =>
      "There are " ++ pretty a ++ " cars with " ++ pretty b
        ++ " wheels each. Total wheels?"
  | Algebra coeff constant result =>
      "Solve for x: " ++ pretty coeff ++ "x + " ++ pretty constant ++ " = "
        ++ pretty result
  | NextNumber => "What is the next number: 2, 4, 6, 8, ?"
  | CatsAndMice =>
      "If 3 cats catch 3 mice in 3 minutes, how many cats to catch 100 mice in 100 minutes?"
  end.

(** The defining operation of the puzzle over those operands. *)
Definition solve (p : Puzzle) : Z :=
  match p with
  | Addition a b => a + b
  | Subtraction x y => x - y
  | Multiplication a b => a * b
  | NumberToText word => indexOf Captcha.numbers word
  | MixedOperations op num1 num2 =>
      if String.eqb op "+" then num1 + num2
      else if String.eqb op "-" then num1 - num2
      else num1 * num2
  | ApplesBought a b => a + b
  | SlicesLeft a b => a - b
  | WheelsInTotal a b => a * b
  | Algebra coeff constant result => (result - constant) / coeff
  | NextNumber => 10
  | CatsAndMice => 3
  end.

(** A generation result whose answer is the defining operation of a
    puzzle and whose question renders that puzzle, either as it is or
    after the distortion of its difficulty. *)
Definition round_trip (random : nat -> Q) (d : string)
    (r : option (Captcha.Captcha * nat)) : Prop :=
  exists p c j, r = Some (c, j) /\ Captcha.answer c = solve p /\
    (Captcha.question c = render p \/
     exists k,
       Captcha.applyDistortion random (render p) d k
       = Some (Captcha.question c, j)).

(** No character of the string opens a placeholder. *)
Fixpoint braceFree (s : string) : bool :=
  match s with
  | EmptyString => true
  | String c r => negb (Ascii.eqb c "{") && braceFree r
  end.

End Spec.

(** ** Sample inputs *)

Module Samples.
Import Js Server.

(** An oracle that replays a list of draws, then returns 0. *)
Definition oracle (l : list Q) : nat -> Q := fun i => default 0%Q (l !! i).

Definition uid : string := "3f2b8c1e-0d4a-4e6b-9a57-1c2d3e4f5a6b".

Definition desktop : string := "Mozilla/5.0 (X11; Linux x86_64)".

Definition scraper : string := "python-requests crawler spider bot scrape curl".

Definition getRequest (path userAgent : string) (query : gmap string JsValue)
  : Request :=
  {| ip := Some "203.0.113.7"; remoteAddress := None; path := path;
     headers := {[ "user-agent" := userAgent ]}; query := query; body := ∅ |}.

Definition generation (userAgent : string) (query : gmap string JsValue)
  : Request := getRequest "/api/captcha" userAgent query.

Definition validation (captchaId answer : JsValue) : Request :=
  {| ip := Some "203.0.113.7"; remoteAddress := None;
     path := "/api/validate-captcha";
     headers := {[ "user-agent" := desktop ]}; query := ∅;
     body := <["captchaId" := captchaId]> (<["answer" := answer]> ∅) |}.

Definition fallbackFrom (previousDifficulty : JsValue) : Request :=
  getRequest "/api/captcha/fallback" desktop
    {[ "previousDifficulty" := previousDifficulty ]}.

(** A generation at "easy" with all draws 0: the question is
    "What is 1 + 1?", stored under [uid] until 601000. *)
Definition created : Op :=
  Create (generation desktop {[ "difficulty" := JsString "easy" ]})
         uid (oracle []) 0 1000 1000.

Definition challenge : CaptchaData :=
  {| answer := 2; createdAt := 1000; expiresAt := 601000; attempts := 0;
     difficulty := "easy"; type := None;
     context :=
       {| userAgent := Some desktop; ctx_ip := Some "203.0.113.7";
          botScore := 3; botSignals := ["suspicious-accept"];
          requestedDifficulty := JsString "easy";
          determinedDifficulty := "easy" |};
     lastValidation := None |}.

Definition wrongCall : Request * Z * Z :=
  (validation (JsString uid) (JsString "5"), 2000, 2000).
Definition rightCall : Request * Z * Z :=
  (validation (JsString uid) (JsString "2"), 3000, 3000).
Definition wrong : Op := Validate wrongCall.1.1 wrongCall.1.2 wrongCall.2.
Definition right : Op := Validate rightCall.1.1 rightCall.1.2 rightCall.2.

(** An answer sent as a JSON number of eleven digits. *)
Definition longNumber : Request :=
  validation (JsString uid) (JsNumber 12345678901).

(** An answer sent as a string of eleven characters. *)
Definition longString : Request :=
  validation (JsString uid) (JsString "12345678901").

(** The store after the generation, and after three wrong answers. *)
Definition fresh : gmap string CaptchaData := runAll [created].
Definition exhausted : gmap string CaptchaData :=
  runAll [created; wrong; wrong; wrong].

(** Draws that select, at "hard", the mixed-operations kind, the
    operator [-] and the operands 1 and 20; the last three decide the
    leetspeak substitutions. *)
Definition negativeDraws : list Q :=
  [(1 # 2); (1 # 3); 0; (19 # 20); (1 # 10); (1 # 2); (9 # 10)]%Q.

(** Draws that select, at "extreme", the kind multipleOperations and
    the operands 13 and 18. *)
Definition multipleDraws : list Q := [(1 # 3); (1 # 3); (1 # 2)]%Q.

End Samples.

(** ** The analytics route and runs of the rate limiter *)

Module Analytics.
Import Js Server.

(** The counters of [GET /api/analytics] that are computed from the two
    maps (the process figures and the time stamp are left out). *)
Record Stats := {
  activeCaptchas : Z;
  byDifficulty : gmap string Z;
  byType : gmap string Z;
  validationAttempts : Z;
  successfulValidations : Z;
  failedValidations : Z;
  activeIPs : Z
}.

(** [obj[key] = (obj[key] || 0) + 1] *)
Definition increment (key : string) (obj : gmap string Z) : gmap string Z :=
  <[key := default 0 (obj !! key) + 1]> obj.

(** The property name a possibly undefined kind is used as. *)
Definition typeKey (ty : option string) : string := default "undefined" ty.

(** The body of the [forEach] over the stored challenges. *)
Definition tally (stats : Stats) (captcha : CaptchaData) : Stats :=
  {| activeCaptchas := activeCaptchas stats;
     byDifficulty := increment (difficulty captcha) (byDifficulty stats);
     byType := increment (typeKey (type captcha)) (byType stats);
     validationAttempts := validationAttempts stats + attempts captcha;
     successfulValidations :=
       match lastValidation captcha with
       | Some v => if lv_valid v then successfulValidations stats + 1
                   else successfulValidations stats
       | None => successfulValidations stats
       end;
     failedValidations :=
       match lastValidation captcha with
       | Some v => if lv_valid v then failedValidations stats
                   else failedValidations stats + 1
       | None => failedValidations stats
       end;
     activeIPs := activeIPs stats |}.

(** The handler. The challenges are visited in the order of the map's
    entries; every counter is a sum, so the order does not show. *)
Definition analytics (captchaStore : gmap string CaptchaData)
    (requestCounts : gmap string (list Z)) : Stats :=
  foldl tally
    {| activeCaptchas := Z.of_nat (size captchaStore);
       byDifficulty := ∅; byType := ∅;
       validationAttempts := 0; successfulValidations := 0;
       failedValidations := 0;
       activeIPs := Z.of_nat (size requestCounts) |}
    (map_to_list captchaStore).*2.

(** The operations that touch the rate-limit map: the middleware on a
    request, and the timer's collection of old timestamps. *)
Inductive LimiterOp :=
| Check (req : Request) (now : Z)
| Collect (now : Z).

Definition limit (requestCounts : gmap string (list Z)) (op : LimiterOp)
  : gmap string (list Z) :=
  match op with
  | Check req now => (advancedRateLimit req now requestCounts).2
  | Collect now => cleanupRequests now requestCounts
  end.

(** The map after a run of operations on the empty map of a fresh
    process. *)
Definition limitAll (ops : list LimiterOp) : gmap string (list Z) :=
  foldl limit ∅ ops.

End Analytics.

(** ** Further vocabulary *)

Module Vocabulary.
Import Js Server.

(** The client part of a rate-limit key. *)
Definition clientOf (req : Request) : string :=
  default "unknown" (orElse (orElse (ip req) (remoteAddress req))
                            (Some "unknown")).

(** The characters of a string. *)
Fixpoint chars (s : string) : list ascii :=
  match s with
  | EmptyString => []
  | String c r => c :: chars r
  end.

Definition isAscii (c : ascii) : bool := code c <? 128.

(** The string without its non-ASCII bytes. *)
Fixpoint asciiOnly (s : string) : string :=
  match s with
  | EmptyString => EmptyString
  | String c r => if isAscii c then String c (asciiOnly r) else asciiOnly r
  end.

(** What leetspeak may put in the place of [c]: [c] itself, or the digit
    of its letter. *)
Definition leetOf (c c' : ascii) : bool :=
  Ascii.eqb c' c
  || match Captcha.leetMap (toLowerChar c) with
     | Some (String d EmptyString) => Captcha.isLeetChar c && Ascii.eqb c' d
     | _ => false
     end.

(** The number of characters that leetspeak may replace. *)
Definition leetCount (s : string) : nat :=
  List.length (List.filter Captcha.isLeetChar (chars s)).

(** The weight of a bot signal in the score. *)
Definition weight (signal : string) : Z :=
  if String.eqb signal "missing-user-agent" then 10
  else if String.eqb signal "suspicious-accept" then 3
  else 5.

(** A stored challenge as the handlers leave it: the count is not
    negative, a validation record is present exactly when an attempt was
    counted, and the record is never that of a success. *)
Definition coherent (d : CaptchaData) : Prop :=
  0 <= attempts d
  /\ (lastValidation d = None <-> attempts d = 0)
  /\ (forall v, lastValidation d = Some v -> lv_valid v = false).

(** The range of the answers of a difficulty. *)
Definition answerRange (d : string) : Z * Z :=
  if String.eqb d "easy" then (0, 20)
  else if String.eqb d "hard" then (-19, 400)
  else if String.eqb d "extreme" then (3, 60)
  else (0, 225).

(** A generation that succeeds with an answer between [lo] and [hi]. *)
Definition answerWithin (lo hi : Z) (r : option (Captcha.Captcha * nat))
  : Prop :=
  exists c j, r = Some (c, j) /\ lo <= Captcha.answer c <= hi.

(** The integers that a double holds exactly. *)
Definition safeInteger (z : Z) : bool := (- 2 ^ 53 <? z) && (z <? 2 ^ 53).

(** Decimal digits. *)
Definition digitChar (c : ascii) : bool := (48 <=? code c) && (code c <=? 57).

Fixpoint allDigits (s : string) : bool :=
  match s with
  | EmptyString => true
  | String c r => digitChar c && allDigits r
  end.

(** The two prefix tests of [parseInt], named. *)
Definition signSplit (S0 : string) : Z * string :=
  match S0 with
  | String "-" r => (-1, r)
  | String "+" r => (1, r)
  | _ => (1, S0)
  end.

Definition radixSplit (S1 : string) : Z * string :=
  match S1 with
  | String "0" (String "x" r) => (16, r)
  | String "0" (String "X" r) => (16, r)
  | _ => (10, S1)
  end.

End Vocabulary.

(** * Properties *)

(** ** Coercions on sample values *)

Module JsFacts.
Import Js.

Example parseInt_decimal : parseInt (JsString "7") = Some 7.
Proof. reflexivity. Qed.

Example parseInt_prefix : parseInt (JsString "  -19abc") = Some (-19).
Proof. reflexivity. Qed.

Example parseInt_hexadecimal : parseInt (JsString "0x1F") = Some 31.
Proof. reflexivity. Qed.

Example parseInt_NaN : parseInt (JsString "seven") = None.
Proof. reflexivity. Qed.

Example parseInt_number : parseInt (JsNumber 12345678901) = Some 12345678901.
Proof. reflexivity. Qed.

Example replace_first_only :
  replace "{a}" "12" "{a} and {a}" = "12 and {a}".
Proof. reflexivity. Qed.

Example android_is_mobile :
  testAnyCI ["Mobi"; "Android"; "iPhone"; "iPad"] "Mozilla/5.0 (ANDROID 10)"
  = true.
Proof. reflexivity. Qed.

Example retry_rounds_up : ceilDiv 1 1000 = 1 /\ ceilDiv 1001 1000 = 2.
Proof. split; reflexivity. Qed.

End JsFacts.

(** ** Fallback difficulty *)

Module FallbackFacts.
Import Js Server Spec.

Lemma indexOf_difficulties s :
  s ∈ difficulties ->
  (s = "extreme" /\ indexOf difficulties s = 0) \/
  (s = "hard" /\ indexOf difficulties s = 1) \/
  (s = "medium" /\ indexOf difficulties s = 2) \/
  (s = "easy" /\ indexOf difficulties s = 3).
Proof.
  unfold difficulties. rewrite !elem_of_cons, elem_of_nil.
  intros [-> | [-> | [-> | [-> | []]]]]; vm_compute; tauto.
Qed.

Lemma level_None s : s ∉ difficulties -> level s = None.
Proof.
  unfold difficulties, level. rewrite !not_elem_of_cons. intros (H1 & H2 & H3 & H4 & _).
  apply String.eqb_neq in H1, H2, H3, H4. by rewrite H1, H2, H3, H4.
Qed.

(** What the handler computes, for every query value. *)
Lemma fallbackDifficulty_level v :
  level (fallbackDifficulty v)
  = Some (match levelOf v with Some r => Z.max 0 (r - 1) | None => 0 end).
Proof.
  unfold fallbackDifficulty.
  destruct v as [ | | b | n | s | o ]; simpl; try reflexivity.
  - by destruct b.
  - by destruct (negb (n =? 0)).
  - destruct (String.eqb_spec s "") as [-> | _]; [reflexivity |]. simpl.
    destruct (decide (s ∈ difficulties)) as [Hin | Hout].
    + rewrite bool_decide_eq_true_2 by done.
      destruct (indexOf_difficulties s Hin)
        as [[-> _] | [[-> _] | [[-> _] | [-> _]]]]; reflexivity.
    + rewrite bool_decide_eq_false_2 by done.
      by rewrite (level_None s Hout).
Qed.

(** C1 (as stated, refuted): from "medium" the route answers "easy", not
    "hard", and from "extreme" it answers "hard", not "extreme". *)
Lemma fallback_medium_is_not_hard :
  (fallback (Samples.fallbackFrom (JsString "medium")) ∅).1 = "easy" /\
  (fallback (Samples.fallbackFrom (JsString "extreme")) ∅).1 = "hard" /\
  "easy" <> "hard" /\ "hard" <> "extreme".
Proof. repeat split; try reflexivity; discriminate. Qed.

(** C1 (amended): the difficulty of the fallback redirect is one step
    toward "easy" along easy < medium < hard < extreme from the previous
    difficulty, staying at "easy"; with no recognised previous
    difficulty it is "easy". In particular "medium" gives "easy",
    "extreme" gives "hard", and an absent value gives "easy". *)
Theorem fallback_steps_toward_easy (req : Request)
    (captchaStore : gmap string CaptchaData) :
  let previous := prop (query req) "previousDifficulty" in
  let next := (fallback req captchaStore).1 in
  level next
  = Some (match levelOf previous with Some r => Z.max 0 (r - 1) | None => 0 end)
  /\ (previous = JsString "extreme" -> next = "hard")
  /\ (previous = JsString "hard" -> next = "medium")
  /\ (previous = JsString "medium" -> next = "easy")
  /\ (previous = JsString "easy" -> next = "easy")
  /\ (previous = JsUndefined -> next = "easy").
Proof.
  intros previous next. subst next. unfold fallback. simpl. fold previous.
  split; [apply fallbackDifficulty_level |].
  repeat split; intros ->; reflexivity.
Qed.

Lemma fallback_steps_toward_easy_witness :
  let next := (fallback (Samples.fallbackFrom (JsString "medium")) ∅).1 in
  level next = Some 0 /\ next = "easy".
Proof.
  pose proof (fallback_steps_toward_easy
                (Samples.fallbackFrom (JsString "medium")) ∅)
    as (Hlevel & _ & _ & Hmedium & _).
  split; [exact Hlevel | exact (Hmedium eq_refl)].
Defined.

End FallbackFacts.

(** ** Difficulty selection *)

Module RiskFacts.
Import Js Server.

(** The selected difficulty is always one of the four levels, so the
    generator is only called with a level of its table. *)
Lemma determineDifficulty_allowed req score requested :
  determineDifficulty req score requested ∈ allowedDifficulties.
Proof.
  unfold determineDifficulty.
  destruct (truthy requested && includes allowedDifficulties requested) eqn:E.
  - apply andb_true_iff in E as [_ E]. destruct requested; try discriminate.
    simpl in *. by apply bool_decide_eq_true in E.
  - unfold allowedDifficulties.
    repeat match goal with |- context [if ?b then _ else _] => destruct b end;
      set_solver.
Qed.

(** Without an honoured explicit request the score thresholds never
    select "extreme": the test of 25 stands behind the test of 15. *)
Lemma determineDifficulty_never_extreme req score requested :
  truthy requested && includes allowedDifficulties requested = false ->
  determineDifficulty req score requested <> "extreme".
Proof.
  intros E. unfold determineDifficulty. rewrite E.
  repeat match goal with |- context [if ?b then _ else _] => destruct b eqn:? end;
    try discriminate.
  lia.
Qed.

(** C2 (the code at the failing inputs): with no valid explicit request
    and a user agent that indicates neither a mobile nor a tablet, every
    score above 25 is mapped to "hard", where the claim says "extreme";
    the scores above 15 are mapped to "hard" as claimed. *)
Theorem determineDifficulty_above_25_is_hard
    (req : Request) (score : Z) (requested : JsValue) :
  truthy requested && includes allowedDifficulties requested = false ->
  testAnyCI ["Mobi"; "Android"; "iPhone"; "iPad"] (header req "user-agent") = false ->
  testAnyCI ["Tablet"; "iPad"] (header req "user-agent") = false ->
  (15 < score -> determineDifficulty req score requested = "hard") /\
  (25 < score -> determineDifficulty req score requested = "hard").
Proof.
  intros E Hm Ht. unfold determineDifficulty. rewrite E, Hm, Ht.
  split; intros Hs.
  - by rewrite (proj2 (Z.ltb_lt 15 score)) by lia.
  - by rewrite (proj2 (Z.ltb_lt 15 score)) by lia.
Qed.

(** A scraper whose user agent matches six patterns and that sends no
    accept header scores 33 and is served a "hard" challenge. *)
Lemma determineDifficulty_above_25_is_hard_witness :
  let req := Samples.generation Samples.scraper ∅ in
  (botDetection req).1 = 33 /\
  determineDifficulty req (botDetection req).1 (prop (query req) "difficulty")
  = "hard".
Proof.
  split; [reflexivity |].
  apply (determineDifficulty_above_25_is_hard
           (Samples.generation Samples.scraper ∅) 33 JsUndefined);
    [reflexivity | reflexivity | reflexivity | lia].
Defined.

End RiskFacts.

(** ** The puzzle generator *)

Module CaptchaFacts.
Import Js Captcha Spec.

Lemma index_Some_elem {A} (l : list A) i x : index l i = Some x -> x ∈ l.
Proof.
  unfold index. destruct (i <? 0); [done |]. apply list_elem_of_lookup_2.
Qed.

Lemma index_in_range {A} (l : list A) i :
  0 <= i < Z.of_nat (List.length l) -> is_Some (index l i).
Proof.
  intros [H0 H1]. unfold index.
  rewrite (proj2 (Z.ltb_ge i 0)) by lia.
  apply lookup_lt_is_Some. lia.
Qed.

Lemma bind_unfold {A B} (m : M A) (f : A -> M B) i :
  (m ≫= f) i = match m i with Some (a, j) => f a j | None => None end.
Proof. reflexivity. Qed.

Lemma ret_unfold {A} (x : A) i : (mret x : M A) i = Some (x, i).
Proof. reflexivity. Qed.

(** Unfolds the draws at the head of a generator computation. *)
Ltac draw :=
  repeat first
    [ rewrite bind_unfold
    | rewrite ret_unfold
    | progress unfold chooseType, randomInRange, randomBelow, Math_random ];
  cbv beta iota.

(** *** The contract of the random source *)

Lemma floor_below (u : Q) (n : Z) :
  (0 <= u)%Q -> (u < 1)%Q -> 0 < n -> 0 <= Qfloor (u * inject_Z n) < n.
Proof.
  intros Hu0 Hu1 Hn. split.
  - change 0 with (Qfloor 0). apply Qfloor_resp_le.
    apply Qmult_le_0_compat; [done |]. change 0%Q with (inject_Z 0).
    rewrite <- Zle_Qle. lia.
  - rewrite Zlt_Qlt. eapply Qle_lt_trans; [apply Qfloor_le |].
    rewrite <- (Qmult_1_l (inject_Z n)) at 2.
    apply Qmult_lt_compat_r; [| done].
    change 0%Q with (inject_Z 0). rewrite <- Zlt_Qlt. lia.
Qed.

Lemma randomBelow_spec random n i :
  randomBelow random n i = Some (Qfloor (random i * inject_Z n), S i).
Proof. reflexivity. Qed.

Lemma randomInRange_spec random min max i :
  randomInRange random (min, max) i
  = Some (Qfloor (random i * inject_Z (max - min + 1)) + min, S i).
Proof. reflexivity. Qed.

Lemma randomInRange_bounds random min max i :
  unit_interval random -> min <= max ->
  min <= Qfloor (random i * inject_Z (max - min + 1)) + min <= max.
Proof.
  intros Hu Hle. destruct (Hu i) as [H0 H1].
  pose proof (floor_below (random i) (max - min + 1) H0 H1). lia.
Qed.

Lemma oracle_unit_interval (l : list Q) :
  forallb (fun u => Qle_bool 0 u && negb (Qle_bool 1 u)) l = true ->
  unit_interval (Samples.oracle l).
Proof.
  intros Hl i. unfold Samples.oracle.
  destruct (l !! i) as [u |] eqn:E; simpl.
  - rewrite forallb_forall in Hl.
    assert (Hin : In u l) by (apply list_elem_of_In; eapply list_elem_of_lookup_2; eauto).
    apply Hl in Hin. apply andb_true_iff in Hin as [Ha Hb].
    apply Qle_bool_iff in Ha. split; [done |].
    apply Qnot_le_lt. intros Hc. apply Qle_bool_iff in Hc.
    by rewrite Hc in Hb.
  - split; [apply Qle_refl | reflexivity].
Qed.

(** *** Rounding, totality of the distortion, and the round trip *)

Lemma Math_round_Z z : Math_round (inject_Z z) = z.
Proof.
  unfold Math_round.
  pose proof (Qfloor_le (inject_Z z + (1 # 2))) as Hl.
  pose proof (Qlt_floor (inject_Z z + (1 # 2))) as Hu.
  set (f := Qfloor _) in *. clearbody f.
  unfold Qle, Qlt, Qplus, inject_Z in *. simpl in *. lia.
Qed.

Lemma Math_round_quotient coeff constant x :
  0 < coeff ->
  Math_round (inject_Z (coeff * x + constant - constant) / inject_Z coeff) = x.
Proof.
  intros Hc. rewrite <- (Math_round_Z x) at 2. unfold Math_round.
  apply Qfloor_comp. apply Qplus_comp; [| reflexivity].
  replace (coeff * x + constant - constant) with (x * coeff) by lia.
  rewrite inject_Z_mult. apply Qdiv_mult_l.
  change 0%Q with (inject_Z 0). rewrite inject_Z_injective. lia.
Qed.

Lemma draw_index {A} (l : list A) (u : Q) :
  (0 <= u)%Q -> (u < 1)%Q -> l <> [] ->
  exists x, index l (Qfloor (u * inject_Z (Z.of_nat (List.length l)))) = Some x /\ x ∈ l.
Proof.
  intros H0 H1 Hl.
  destruct (index_in_range l (Qfloor (u * inject_Z (Z.of_nat (List.length l))))) as [x Hx].
  - apply floor_below; try done. destruct l; [done | simpl; lia].
  - exists x. split; [done |]. by eapply index_Some_elem.
Qed.

Section Total.
Variable random : nat -> Q.

Lemma leetspeak_total s i : exists t j, leetspeak random s i = Some (t, j).
Proof.
  revert i. induction s as [| c r IH]; intros i; simpl.
  - by eexists _, _.
  - destruct (isLeetChar c).
    + draw. destruct (IH (S i)) as (t & j & ->). draw. by eexists _, _.
    + draw. destruct (IH i) as (t & j & ->). draw. by eexists _, _.
Qed.

Lemma unicode_total s i : exists t j, unicode random s i = Some (t, j).
Proof.
  revert i. induction s as [| c r IH]; intros i; simpl.
  - by eexists _, _.
  - draw. destruct (IH (S i)) as (t & j & ->). draw. by eexists _, _.
Qed.

Lemma reduceDistortions_total ds s i :
  exists t j, reduceDistortions random ds s i = Some (t, j).
Proof.
  revert s i. induction ds as [| d ds IH]; intros s i; simpl.
  - by eexists _, _.
  - rewrite bind_unfold.
    destruct (String.eqb d "leetspeak").
    { destruct (leetspeak_total s i) as (t & j & ->). apply IH. }
    destruct (String.eqb d "unicode").
    { destruct (unicode_total s i) as (t & j & ->). apply IH. }
    rewrite ret_unfold. apply IH.
Qed.

Lemma applyDistortion_total text d i :
  exists t j, applyDistortion random text d i = Some (t, j).
Proof. apply reduceDistortions_total. Qed.

Lemma finish_spec d ty q a i :
  exists q' j, applyDistortion random q d i = Some (q', j) /\
    finish random d ty (q, a) i
    = Some ({| question := q'; answer := Math_round a; type := ty;
               difficulty := Some d |}, j).
Proof.
  destruct (applyDistortion_total q d i) as (q' & j & E).
  exists q', j. split; [done |]. unfold finish. rewrite bind_unfold. simpl.
  by rewrite E.
Qed.
End Total.

Lemma numbers_word num :
  0 <= num <= 10 ->
  exists word, index numbers num = Some word /\ indexOf numbers word = num.
Proof.
  intros H.
  assert (num = 0 \/ num = 1 \/ num = 2 \/ num = 3 \/ num = 4 \/ num = 5 \/
          num = 6 \/ num = 7 \/ num = 8 \/ num = 9 \/ num = 10) as Hc by lia.
  repeat destruct Hc as [-> | Hc]; try subst num; eexists; split; reflexivity.
Qed.

Lemma braceFree_pretty_N_go x s :
  braceFree s = true -> braceFree (pretty_N_go x s) = true.
Proof.
  revert s. induction (N.lt_wf_0 x) as [x _ IH]; intros s Hs.
  assert (x = 0 \/ 0 < x)%N as [-> | Hx] by lia.
  - by rewrite pretty_N_go_0.
  - rewrite pretty_N_go_step by done. apply IH; [by apply N.div_lt |].
    simpl. rewrite Hs. unfold pretty_N_char. by repeat case_match.
Qed.

Lemma braceFree_pretty (z : Z) : braceFree (pretty z) = true.
Proof.
  assert (forall p : positive, braceFree (pretty p) = true) as Hp.
  { intros p. unfold pretty, pretty_positive, pretty, pretty_N.
    case_decide; [done |]. by apply braceFree_pretty_N_go. }
  destruct z as [| p | p]; [done | apply Hp |].
  change (pretty (Z.neg p)) with (String "-" (pretty p)). simpl. apply Hp.
Qed.

Lemma replace_skip p r s1 s2 :
  braceFree s1 = true ->
  replace (String "{" p) r (s1 ++ s2) = s1 ++ replace (String "{" p) r s2.
Proof.
  induction s1 as [| c s1 IH]; intros Hs; [done |].
  simpl in Hs. apply andb_true_iff in Hs as [Hc Hs].
  change (String c s1 ++ s2) with (String c (s1 ++ s2)).
  cbn [replace startsWith]. rewrite Ascii.eqb_sym. 
  destruct (Ascii.eqb c "{"); [done |]. simpl. by rewrite IH.
Qed.

Lemma replace_two pre mid suf ra rb :
  braceFree pre = true -> braceFree mid = true -> braceFree ra = true ->
  replace "{b}" rb (replace "{a}" ra (pre ++ "{a}" ++ mid ++ "{b}" ++ suf))
  = pre ++ ra ++ mid ++ rb ++ suf.
Proof.
  intros Hpre Hmid Hra.
  rewrite (replace_skip "a}" ra pre) by done.
  change (replace "{a}" ra ("{a}" ++ mid ++ "{b}" ++ suf))
    with (ra ++ mid ++ "{b}" ++ suf).
  rewrite !(replace_skip "b}" rb) by done. reflexivity.
Qed.

Section RoundTrip.
Variable random : nat -> Q.
Hypothesis Hunit : unit_interval random.

Lemma generateBasicCaptcha_round_trip ty range i :
  exists p c j, generateBasicCaptcha random ty range i = Some (c, j)
    /\ answer c = solve p /\ question c = render p /\ type c = None.
Proof.
  unfold generateBasicCaptcha. destruct range as [min max]. draw.
  destruct (isCase ty "addition"); [ draw; by eexists (Addition _ _), _, _ |].
  destruct (isCase ty "subtraction"); [ draw; by eexists (Subtraction _ _), _, _ |].
  destruct (isCase ty "multiplication"); [ draw; by eexists (Multiplication _ _), _, _ |].
  destruct (isCase ty "numberToText"); [| draw; by eexists (Addition _ _), _, _ ].
  draw.
  destruct (numbers_word (Qfloor (random (S (S i)) * inject_Z (10 - 0 + 1)) + 0))
    as (word & Hw & Hi).
  { apply randomInRange_bounds; [done | lia]. }
  rewrite Hw. by eexists (NumberToText word), _, _.
Qed.

Lemma basic_round_trip d ty range i :
  round_trip random d (generateBasicCaptcha random ty range i).
Proof.
  destruct (generateBasicCaptcha_round_trip ty range i)
    as (p & c & j & E & Ha & Hq & _).
  exists p, c, j. auto.
Qed.

Lemma finish_round_trip d ty p a i :
  Math_round a = solve p ->
  round_trip random d (finish random d ty (render p, a) i).
Proof.
  intros Ha. destruct (finish_spec random d ty (render p) a i) as (q' & j & E & ->).
  eexists p, _, j. split; [reflexivity |]. split; [done |]. right. by exists i.
Qed.

Lemma mixedOperations_round_trip d ty range i :
  round_trip random d
    ((j ← randomBelow random (Z.of_nat (List.length ops));
      let op := index ops j in
      num1 ← randomInRange random range;
      num2 ← randomInRange random range;
      match op with
      | Some op =>
          finish random d ty
            ("Calculate: " ++ pretty num1 ++ " " ++ op ++ " " ++ pretty num2,
             inject_Z (evalOp op num1 num2))
      | None => throw
      end) i).
Proof.
  destruct range as [min max]. draw.
  destruct (draw_index ops (random i)) as (op & -> & Hop); [apply Hunit.. | done |].
  apply (finish_round_trip d ty (MixedOperations op _ _)).
  by rewrite Math_round_Z.
Qed.

Lemma wordProblem_round_trip d ty i :
  round_trip random d
    ((j ← randomBelow random (Z.of_nat (List.length problems));
      let problem := index problems j in
      pA ← randomInRange random (2, 10);
      pB ← randomInRange random (2, 10);
      match problem with
      | Some (q, a) =>
          finish random d ty
            (replace "{b}" (pretty pB) (replace "{a}" (pretty pA) q),
             inject_Z (a pA pB))
      | None => throw
      end) i).
Proof.
  draw.
  destruct (draw_index problems (random i)) as (pr & -> & Hpr); [apply Hunit.. | done |].
  unfold problems in Hpr. rewrite !elem_of_cons, elem_of_nil in Hpr.
  destruct Hpr as [-> | [-> | [-> | []]]].
  - rewrite (replace_two "If you have " " apples and buy "
               " more, how many do you have?")
      by (done || apply braceFree_pretty).
    apply (finish_round_trip d ty (ApplesBought _ _)). by rewrite Math_round_Z.
  - rewrite (replace_two "A pizza has " " slices. If you eat "
               ", how many remain?")
      by (done || apply braceFree_pretty).
    apply (finish_round_trip d ty (SlicesLeft _ _)). by rewrite Math_round_Z.
  - rewrite (replace_two "There are " " cars with "
               " wheels each. Total wheels?")
      by (done || apply braceFree_pretty).
    apply (finish_round_trip d ty (WheelsInTotal _ _)). by rewrite Math_round_Z.
Qed.

Lemma complexAlgebra_round_trip d ty i :
  round_trip random d
    ((coeff ← randomInRange random (2, 5);
      constant ← randomInRange random (1, 10);
      x ← randomInRange random (3, 8);
      let result := coeff * x + constant in
      finish random d ty
        ("Solve for x: " ++ pretty coeff ++ "x + " ++ pretty constant
           ++ " = " ++ pretty result,
         (inject_Z (result - constant) / inject_Z coeff)%Q)) i).
Proof.
  draw. cbv zeta.
  pose proof (randomInRange_bounds random 2 5 i Hunit ltac:(lia)) as Hc.
  generalize dependent (Qfloor (random i * inject_Z (5 - 2 + 1)) + 2).
  intros coeff Hc.
  generalize (Qfloor (random (S i) * inject_Z (10 - 1 + 1)) + 1).
  intros constant.
  generalize (Qfloor (random (S (S i)) * inject_Z (8 - 3 + 1)) + 3).
  intros x.
  apply (finish_round_trip d ty (Algebra coeff constant (coeff * x + constant))).
  rewrite Math_round_quotient by lia. simpl.
  replace (coeff * x + constant - constant) with (x * coeff) by lia.
  symmetry. apply Z.div_mul. lia.
Qed.

Lemma logicPuzzle_round_trip d ty i :
  round_trip random d
    ((j ← randomBelow random (Z.of_nat (List.length puzzles));
      match index puzzles j with
      | Some (q, a) => finish random d ty (q, inject_Z a)
      | None => throw
      end) i).
Proof.
  draw.
  destruct (draw_index puzzles (random i)) as (pz & -> & Hpz); [apply Hunit.. | done |].
  unfold puzzles in Hpz. rewrite !elem_of_cons, elem_of_nil in Hpz.
  destruct Hpz as [-> | [-> | []]].
  - apply (finish_round_trip d ty NextNumber). by rewrite Math_round_Z.
  - apply (finish_round_trip d ty CatsAndMice). by rewrite Math_round_Z.
Qed.

Lemma generateCaptcha_round_trip d i :
  round_trip random d (generateCaptcha random d i).
Proof.
  unfold generateCaptcha. cbv zeta. rewrite bind_unfold.
  destruct (chooseType random _ i) as [[ty j] |] eqn:E; [| discriminate E].
  destruct (isCase ty "mixedOperations"); [apply mixedOperations_round_trip |].
  destruct (isCase ty "wordProblem"); [apply wordProblem_round_trip |].
  destruct (isCase ty "complexAlgebra"); [apply complexAlgebra_round_trip |].
  destruct (isCase ty "logicPuzzle"); [apply logicPuzzle_round_trip |].
  apply basic_round_trip.
Qed.
End RoundTrip.

(** *** C8: the record of the basic kinds *)

(** C8 (the code at the failing input): a generation at "easy" makes
    three draws and returns an object with a question and an answer but
    no kind tag (and no difficulty), whatever the random source: both
    kinds of that level leave through the early return of the basic
    generator. *)
Theorem generateCaptcha_easy_has_no_type (random : nat -> Q) (i : nat) :
  exists c, generateCaptcha random "easy" i = Some (c, S (S (S i)))
            /\ type c = None /\ difficulty c = None.
Proof.
  unfold generateCaptcha.
  change (default medium (difficulties "easy")) with easy. cbv zeta.
  rewrite bind_unfold. unfold chooseType at 1. draw.
  destruct (index (types easy) _) as [s |] eqn:E.
  - apply index_Some_elem in E. unfold easy, types in E.
    rewrite !elem_of_cons, elem_of_nil in E.
    destruct E as [-> | [-> | []]];
      cbn [isCase String.eqb Ascii.eqb Bool.eqb]; cbv beta iota;
      unfold generateBasicCaptcha; draw;
      cbn [isCase String.eqb Ascii.eqb Bool.eqb]; cbv beta iota zeta; draw;
      eexists; repeat split; reflexivity.
  - cbn [isCase]. cbv beta iota. unfold generateBasicCaptcha. draw.
    cbn [isCase]. cbv beta iota. draw. eexists; repeat split; reflexivity.
Qed.

(** The scenario of the specification: at "easy", draws that select
    addition and the operands 3 and 4 give the answer 7; the server
    stores it, accepts the submission "7" and forgets the challenge. *)
Example easy_three_plus_four :
  let random := Samples.oracle [0; (1 # 4); (7 # 20)]%Q in
  generateCaptcha random "easy" 0%nat
  = Some ({| question := "What is 3 + 4?"; answer := 7;
             type := None; difficulty := None |}, 3%nat)
  /\
  let req := Samples.generation Samples.desktop
               {[ "difficulty" := JsString "easy" ]} in
  let stored := (Server.getCaptcha req Samples.uid random 0 1000 1000 ∅).1.2 in
  let r := Server.validateCaptcha
             (Samples.validation (JsString Samples.uid) (JsString "7"))
             2000 2000 stored in
  Server.answer <$> stored !! Samples.uid = Some 7
  /\ Server.valid r.1 = true /\ r.2 !! Samples.uid = None.
Proof. repeat split; vm_compute; reflexivity. Qed.

(** *** C9: the kind multipleOperations *)

(** C9: at "extreme", when the kind drawn is multipleOperations, the
    result is the plain addition question over two operands of the
    range 5..30 with their sum as answer: no case handles the kind, the
    basic generator answers by its default, and no distortion is applied
    (the question is the template itself and only three draws are made). *)
Theorem multipleOperations_is_plain_addition (random : nat -> Q) (i : nat) :
  unit_interval random ->
  chooseType random extreme i = Some (Some "multipleOperations", S i) ->
  exists a b, 5 <= a <= 30 /\ 5 <= b <= 30 /\
    generateCaptcha random "extreme" i
    = Some ({| question := "What is " ++ pretty a ++ " + " ++ pretty b ++ "?";
               answer := a + b; type := None; difficulty := None |},
            S (S (S i))).
Proof.
  intros Hunit Hty.
  exists (Qfloor (random (S i) * inject_Z (30 - 5 + 1)) + 5),
         (Qfloor (random (S (S i)) * inject_Z (30 - 5 + 1)) + 5).
  split; [apply randomInRange_bounds; [done | lia] |].
  split; [apply randomInRange_bounds; [done | lia] |].
  unfold generateCaptcha.
  change (default medium (difficulties "extreme")) with extreme. cbv zeta.
  rewrite bind_unfold, Hty.
  cbn [isCase String.eqb Ascii.eqb Bool.eqb]. cbv beta iota.
  unfold generateBasicCaptcha. draw.
  cbn [isCase String.eqb Ascii.eqb Bool.eqb]. cbv beta iota. draw.
  reflexivity.
Qed.

Lemma multipleOperations_is_plain_addition_witness :
  exists a b, 5 <= a <= 30 /\ 5 <= b <= 30 /\
    generateCaptcha (Samples.oracle Samples.multipleDraws) "extreme" 0%nat
    = Some ({| question := "What is " ++ pretty a ++ " + " ++ pretty b ++ "?";
               answer := a + b; type := None; difficulty := None |}, 3%nat).
Proof.
  apply (multipleOperations_is_plain_addition
           (Samples.oracle Samples.multipleDraws) 0%nat).
  - apply oracle_unit_interval. reflexivity.
  - reflexivity.
Defined.

(** *** C10: negative answers of the mixed-operations kind *)

Lemma subtraction_nonnegative random range i :
  exists c j,
    generateBasicCaptcha random (Some "subtraction") range i = Some (c, j)
    /\ 0 <= answer c.
Proof.
  unfold generateBasicCaptcha. destruct range as [min max]. draw.
  cbn [isCase String.eqb Ascii.eqb Bool.eqb]. cbv beta iota zeta. draw.
  eexists _, _. split; [reflexivity |]. simpl. lia.
Qed.

(** C10: some generation yields a mixed-operations puzzle with a
    negative answer, and the server stores it: with the operator [-] the
    operands are used in the order drawn (1, then 20, answer -19), while
    the basic subtraction kind always subtracts the smaller operand from
    the larger and never answers below zero. *)
Theorem mixedOperations_answer_can_be_negative :
  (exists random c j,
     unit_interval random /\
     generateCaptcha random "hard" 0%nat = Some (c, j) /\
     type c = Some "mixedOperations" /\
     question c = "C4lculate: 1 - 20" /\
     answer c = 1 - 20 /\ answer c < 0 /\
     exists data,
       (Server.getCaptcha
          (Samples.generation Samples.desktop
             {[ "difficulty" := JsString "hard" ]})
          Samples.uid random 0%nat 1000 1000 ∅).1.2 !! Samples.uid = Some data
       /\ Server.answer data < 0)
  /\ (forall random range i, exists c j,
        generateBasicCaptcha random (Some "subtraction") range i = Some (c, j)
        /\ 0 <= answer c).
Proof.
  split; [| apply subtraction_nonnegative].
  exists (Samples.oracle Samples.negativeDraws). eexists _, _.
  split; [by apply oracle_unit_interval |].
  split; [vm_compute; reflexivity |].
  repeat split.
  eexists. split; [vm_compute; reflexivity | done].
Qed.

End CaptchaFacts.

(** ** The challenge store *)

Module StoreFacts.
Import Js Server Spec.

Lemma attempt_inv req id :
  attempt req id = true ->
  prop (body req) "captchaId" = JsString id /\ id <> "" /\
  submitted req <> JsUndefined /\ submitted req <> JsNull /\
  stringLongerThan (submitted req) maxAnswerLength = false.
Proof.
  unfold attempt. rewrite !andb_true_iff, !negb_true_iff.
  intros ((((H1 & H2) & H3) & H4) & H5).
  apply bool_decide_eq_true in H1. apply String.eqb_neq in H2.
  apply bool_decide_eq_false in H3, H4. done.
Qed.

(** A call that passes the input-shape checks reaches the store. *)
Lemma validateCaptcha_attempt req now1 now2 (st : gmap string CaptchaData) id :
  attempt req id = true ->
  validateCaptcha req now1 now2 st =
  match st !! id with
  | None => (rejected 200 "Invalid or expired CAPTCHA", st)
  | Some d =>
      if expiresAt d <? now1 then (rejected 200 "CAPTCHA expired", delete id st)
      else
        let n := attempts d + 1 in
        if maxAttempts <? n then (rejected 200 "Too many attempts", delete id st)
        else
          let isValid := correct req d in
          let d' := set_lastValidation
                      {| timestamp := now2; lv_valid := isValid;
                         userAnswer := submitted req; actualAnswer := answer d |}
                      (set_attempts n d) in
          ({| status := 200; success := true; valid := isValid;
              reason := if isValid then None else Some "Wrong answer";
              res_attempts := Some n; res_difficulty := Some (difficulty d) |},
           if isValid then delete id st else <[id := d']> st)
  end.
Proof.
  intros (Hid & Hne & Hu & Hn & Hlen)%attempt_inv.
  unfold validateCaptcha. fold (submitted req). rewrite Hid, Hlen. simpl.
  apply String.eqb_neq in Hne. rewrite Hne. simpl.
  rewrite !bool_decide_eq_false_2 by done. simpl.
  destruct (st !! id) as [d |] eqn:E; simpl; [| done].
  destruct (expiresAt d <? now1); [done |].
  destruct (maxAttempts <? attempts d + 1); [by rewrite delete_insert_eq |].
  unfold correct.
  destruct (parseInt (submitted req)) as [n |] eqn:P; simpl.
  - destruct (Z.eqb_spec n (answer d)) as [-> | Hneq].
    + rewrite bool_decide_eq_true_2 by done.
      by rewrite !delete_insert_eq.
    + rewrite bool_decide_eq_false_2 by congruence.
      by rewrite !insert_insert_eq.
  - rewrite ?bool_decide_eq_false_2 by done. by rewrite !insert_insert_eq.
Qed.

(** An attempt on an id that the store does not hold. *)
Lemma validateCaptcha_consumed req now1 now2 (st : gmap string CaptchaData) id :
  attempt req id = true -> st !! id = None ->
  validateCaptcha req now1 now2 st
  = (rejected 200 "Invalid or expired CAPTCHA", st).
Proof. intros Ha Hs. by rewrite (validateCaptcha_attempt _ _ _ _ id Ha), Hs. Qed.

(** *** C3: one-time use *)

(** C3 (as stated, refuted): a challenge that is still stored after three
    wrong answers is not validated by its correct answer: the fourth
    attempt, although correct and in time, is answered "Too many
    attempts" with valid=false. *)
Lemma correct_answer_after_three_wrong_is_refused :
  Samples.exhausted !! Samples.uid
    = Some (set_lastValidation
              {| timestamp := 2000; lv_valid := false;
                 userAnswer := JsString "5"; actualAnswer := 2 |}
              (set_attempts 3 Samples.challenge)) /\
  parseInt (submitted Samples.rightCall.1.1) = Some (answer Samples.challenge) /\
  3000 <= expiresAt Samples.challenge /\
  validateCaptcha Samples.rightCall.1.1 3000 3000 Samples.exhausted
  = (rejected 200 "Too many attempts", ∅) /\
  valid (rejected 200 "Too many attempts") = false.
Proof. repeat split; vm_compute; (reflexivity || discriminate). Qed.

(** C3 (amended): for every stored challenge that is unexpired and has
    fewer than maxAttempts attempts so far, an attempt with the correct
    answer returns valid=true and removes the challenge, and every later
    attempt on the same id is answered "Invalid or expired CAPTCHA" and
    changes nothing. *)
Theorem correct_answer_consumes
    (st : gmap string CaptchaData) (id : string) (d : CaptchaData)
    (req : Request) (now1 now2 : Z) :
  st !! id = Some d ->
  attempt req id = true ->
  correct req d = true ->
  now1 <= expiresAt d ->
  attempts d < maxAttempts ->
  let r := validateCaptcha req now1 now2 st in
  status r.1 = 200 /\ valid r.1 = true /\ reason r.1 = None /\
  r.2 = delete id st /\ r.2 !! id = None /\
  forall req' now3 now4, attempt req' id = true ->
    validateCaptcha req' now3 now4 r.2
    = (rejected 200 "Invalid or expired CAPTCHA", r.2).
Proof.
  intros Hs Ha Hc Hexp Hatt r. subst r.
  rewrite (validateCaptcha_attempt _ _ _ _ id Ha), Hs.
  cbv zeta.
  rewrite (proj2 (Z.ltb_ge (expiresAt d) now1)) by lia.
  rewrite (proj2 (Z.ltb_ge maxAttempts (attempts d + 1))) by lia.
  rewrite Hc. simpl.
  repeat split; [apply lookup_delete_eq |].
  intros req' now3 now4 Ha'. apply (validateCaptcha_consumed _ _ _ _ id Ha').
  apply lookup_delete_eq.
Qed.

Lemma correct_answer_consumes_witness :
  let r := validateCaptcha Samples.rightCall.1.1 3000 3000 Samples.fresh in
  status r.1 = 200 /\ valid r.1 = true /\ reason r.1 = None /\
  r.2 = delete Samples.uid Samples.fresh /\ r.2 !! Samples.uid = None /\
  forall req' now3 now4, attempt req' Samples.uid = true ->
    validateCaptcha req' now3 now4 r.2
    = (rejected 200 "Invalid or expired CAPTCHA", r.2).
Proof.
  apply (correct_answer_consumes Samples.fresh Samples.uid Samples.challenge);
    [reflexivity | reflexivity | reflexivity | vm_compute; discriminate | reflexivity].
Defined.

(** *** C4: the attempt limit *)

Lemma wrongAttempt_same id d d' call :
  answer d' = answer d -> expiresAt d' = expiresAt d ->
  wrongAttempt id d' call = wrongAttempt id d call.
Proof. intros Ha He. unfold wrongAttempt, correct. by rewrite Ha, He. Qed.

(** One wrong attempt under the limit. *)
Lemma validateCaptcha_wrong req now1 now2 (st : gmap string CaptchaData) id d :
  st !! id = Some d ->
  wrongAttempt id d (req, now1, now2) = true ->
  attempts d + 1 <= maxAttempts ->
  exists d',
    validateCaptcha req now1 now2 st
    = ({| status := 200; success := true; valid := false;
          reason := Some "Wrong answer";
          res_attempts := Some (attempts d + 1);
          res_difficulty := Some (difficulty d) |}, <[id := d']> st)
    /\ attempts d' = attempts d + 1 /\ answer d' = answer d
    /\ expiresAt d' = expiresAt d.
Proof.
  intros Hs Hw Hn. unfold wrongAttempt in Hw. simpl in Hw.
  apply andb_true_iff in Hw as [[Ha He]%andb_true_iff Hc].
  apply negb_true_iff in Hc. apply Z.leb_le in He.
  rewrite (validateCaptcha_attempt _ _ _ _ id Ha), Hs. cbv zeta.
  rewrite (proj2 (Z.ltb_ge (expiresAt d) now1)) by lia.
  rewrite (proj2 (Z.ltb_ge maxAttempts (attempts d + 1))) by lia.
  rewrite Hc. eexists. split; [reflexivity |]. done.
Qed.

Lemma validateAll_cons call calls (st : gmap string CaptchaData) :
  validateAll (call :: calls) st
  = let r := validateCaptcha call.1.1 call.1.2 call.2 st in
    let rs := validateAll calls r.2 in
    (r.1 :: rs.1, rs.2).
Proof.
  destruct call as [[req now1] now2]. cbn [validateAll fst snd].
  destruct (validateCaptcha req now1 now2 st) as [res st'].
  cbn [fst snd]. by destruct (validateAll calls st').
Qed.

Lemma wrong_attempts_retained (calls : list (Request * Z * Z)) :
  forall (st : gmap string CaptchaData) id d,
  st !! id = Some d ->
  forallb (wrongAttempt id d) calls = true ->
  attempts d + Z.of_nat (List.length calls) <= maxAttempts ->
  let r := validateAll calls st in
  Forall2 wrongAnswer r.1 (seqZ (attempts d + 1) (Z.of_nat (List.length calls)))
  /\ exists d', r.2 = <[id := d']> st
       /\ attempts d' = attempts d + Z.of_nat (List.length calls)
       /\ answer d' = answer d /\ expiresAt d' = expiresAt d.
Proof.
  induction calls as [| call calls IH]; intros st id d Hs Hw Hn.
  - simpl. split; [constructor |]. exists d.
    rewrite insert_id by done. repeat split; lia.
  - simpl in Hw. apply andb_true_iff in Hw as [Hw Hws].
    destruct call as [[req now1] now2]. simpl List.length in *.
    rewrite validateAll_cons. cbv zeta. cbn [fst snd].
    destruct (validateCaptcha_wrong req now1 now2 st id d Hs Hw)
      as (d1 & -> & Hatt & Hans & Hexp); [lia |].
    simpl fst; simpl snd.
    destruct (IH (<[id := d1]> st) id d1) as [HF (d' & Hst & Hatt' & Hans' & Hexp')].
    { apply lookup_insert_eq. }
    { apply forallb_forall. intros c Hc.
      rewrite (wrongAttempt_same id d d1) by done.
      rewrite forallb_forall in Hws. by apply Hws. }
    { lia. }
    split.
    + rewrite seqZ_cons by lia. constructor; [done |].
      rewrite Hatt in HF.
      by replace (Z.pred (Z.of_nat (S (List.length calls))))
        with (Z.of_nat (List.length calls)) by lia.
    + exists d'. rewrite Hst, insert_insert_eq. repeat split; lia || congruence.
Qed.

(** C4: for a stored challenge, wrong answers given in time that bring
    its count up to maxAttempts are each answered "Wrong answer" with the
    count incremented by one, and after each of them the challenge is
    still stored with the updated count; the next attempt in time,
    whatever its answer, finds the incremented count above the limit, is
    answered "Too many attempts" with valid=false, and deletes the
    challenge, after which every attempt on the id is answered "Invalid
    or expired CAPTCHA". From a fresh challenge this is the
    (maxAttempts+1)-th attempt. *)
Theorem wrong_attempts_then_limit
    (st : gmap string CaptchaData) (id : string) (d : CaptchaData)
    (calls : list (Request * Z * Z)) (last : Request) (t1 t2 : Z) :
  st !! id = Some d ->
  forallb (wrongAttempt id d) calls = true ->
  attempts d + Z.of_nat (List.length calls) = maxAttempts ->
  attempt last id = true ->
  t1 <= expiresAt d ->
  let r := validateAll calls st in
  let r' := validateCaptcha last t1 t2 r.2 in
  Forall2 wrongAnswer r.1 (seqZ (attempts d + 1) (Z.of_nat (List.length calls)))
  /\ (forall k, (k <= List.length calls)%nat ->
        exists dk, (validateAll (take k calls) st).2 = <[id := dk]> st
                   /\ attempts dk = attempts d + Z.of_nat k)
  /\ (exists d', r.2 = <[id := d']> st /\ attempts d' = maxAttempts
                 /\ answer d' = answer d /\ expiresAt d' = expiresAt d)
  /\ r'.1 = rejected 200 "Too many attempts"
  /\ r'.2 = delete id st /\ r'.2 !! id = None
  /\ forall req now3 now4, attempt req id = true ->
       validateCaptcha req now3 now4 r'.2
       = (rejected 200 "Invalid or expired CAPTCHA", r'.2).
Proof.
  intros Hs Hw Hn Ha Hexp r r'.
  destruct (wrong_attempts_retained calls st id d Hs Hw ltac:(lia))
    as [HF (d' & Hst & Hatt & Hans & Hexp')].
  fold r in HF, Hst.
  split; [done |].
  split.
  { intros k Hk.
    destruct (wrong_attempts_retained (take k calls) st id d Hs)
      as [_ (dk & Hdk & Hattk & _)].
    - apply forallb_forall. intros c Hc. rewrite forallb_forall in Hw.
      apply Hw. apply list_elem_of_In. apply list_elem_of_In in Hc.
      apply elem_of_take in Hc as (j & Hj & _).
      by eapply list_elem_of_lookup_2.
    - rewrite length_take_le by done. lia.
    - exists dk. rewrite length_take_le in Hattk by done. done. }
  split; [exists d'; repeat split; lia || done |].
  assert (r' = (rejected 200 "Too many attempts", delete id st)) as ->.
  { subst r'. rewrite (validateCaptcha_attempt _ _ _ _ id Ha), Hst.
    rewrite lookup_insert_eq. cbv zeta.
    rewrite (proj2 (Z.ltb_ge (expiresAt d') t1)) by lia.
    rewrite (proj2 (Z.ltb_lt maxAttempts (attempts d' + 1))) by lia.
    by rewrite delete_insert_eq. }
  simpl. repeat split; [apply lookup_delete_eq |].
  intros req now3 now4 Hreq. apply (validateCaptcha_consumed _ _ _ _ id Hreq).
  apply lookup_delete_eq.
Qed.

Lemma wrong_attempts_then_limit_witness :
  let calls := [Samples.wrongCall; Samples.wrongCall; Samples.wrongCall] in
  let r := validateAll calls Samples.fresh in
  let r' := validateCaptcha Samples.rightCall.1.1 3000 3000 r.2 in
  Forall2 wrongAnswer r.1 (seqZ (0 + 1) 3)
  /\ (forall k, (k <= 3)%nat ->
        exists dk, (validateAll (take k calls) Samples.fresh).2
                   = <[Samples.uid := dk]> Samples.fresh
                   /\ attempts dk = 0 + Z.of_nat k)
  /\ (exists d', r.2 = <[Samples.uid := d']> Samples.fresh
                 /\ attempts d' = maxAttempts
                 /\ answer d' = answer Samples.challenge
                 /\ expiresAt d' = expiresAt Samples.challenge)
  /\ r'.1 = rejected 200 "Too many attempts"
  /\ r'.2 = delete Samples.uid Samples.fresh /\ r'.2 !! Samples.uid = None
  /\ forall req now3 now4, attempt req Samples.uid = true ->
       validateCaptcha req now3 now4 r'.2
       = (rejected 200 "Invalid or expired CAPTCHA", r'.2).
Proof.
  apply (wrong_attempts_then_limit Samples.fresh Samples.uid Samples.challenge
           [Samples.wrongCall; Samples.wrongCall; Samples.wrongCall]);
    [reflexivity | reflexivity | reflexivity | reflexivity
    | vm_compute; discriminate].
Defined.

(** *** C6: input-shape errors *)

(** C6 (as stated, refuted): an answer sent as a JSON number of eleven
    digits exceeds ten characters when serialized, yet it is not
    rejected as too long: the length check applies to strings only. The
    call is counted as a wrong answer and the stored count goes from 0
    to 1. *)
Lemma long_number_is_counted :
  String.length (ToString (submitted Samples.longNumber)) = 11%nat /\
  attempts <$> Samples.fresh !! Samples.uid = Some 0 /\
  let r := validateCaptcha Samples.longNumber 2000 2000 Samples.fresh in
  success r.1 = true /\ reason r.1 = Some "Wrong answer" /\
  res_attempts r.1 = Some 1 /\
  attempts <$> r.2 !! Samples.uid = Some 1.
Proof. repeat split; vm_compute; reflexivity. Qed.

(** C6 (amended): a validation call whose id or submitted value is
    absent, or whose submitted value is a string of more than 10
    characters, is rejected with a reason and leaves the store as it
    was: no challenge is changed and no attempt is counted. *)
Theorem input_shape_errors_leave_the_store
    (req : Request) (now1 now2 : Z) (st : gmap string CaptchaData) :
  absent (prop (body req) "captchaId") \/ absent (submitted req) \/
  (exists s, submitted req = JsString s
             /\ maxAnswerLength < Z.of_nat (String.length s)) ->
  let r := validateCaptcha req now1 now2 st in
  (r.1 = rejected 400 "Missing captchaId or answer"
   \/ r.1 = rejected 200 "Answer too long")
  /\ r.2 = st.
Proof.
  intros H r. subst r. unfold validateCaptcha. fold (submitted req).
  destruct (negb (truthy (prop (body req) "captchaId"))
            || bool_decide (submitted req = JsUndefined)
            || bool_decide (submitted req = JsNull)) eqn:E1.
  { split; [by left | done]. }
  destruct (stringLongerThan (submitted req) maxAnswerLength) eqn:E2.
  { split; [by right | done]. }
  exfalso.
  apply orb_false_iff in E1 as [[E1 Eu]%orb_false_iff En].
  apply negb_false_iff in E1.
  apply bool_decide_eq_false in Eu, En.
  destruct H as [[H | H] | [[H | H] | (s & Hs & Hlen)]].
  - by rewrite H in E1.
  - by rewrite H in E1.
  - done.
  - done.
  - rewrite Hs in E2. simpl in E2. apply Z.ltb_ge in E2. lia.
Qed.

Lemma input_shape_errors_leave_the_store_witness :
  let r := validateCaptcha Samples.longString 2000 2000 Samples.fresh in
  (r.1 = rejected 400 "Missing captchaId or answer"
   \/ r.1 = rejected 200 "Answer too long")
  /\ r.2 = Samples.fresh.
Proof.
  apply (input_shape_errors_leave_the_store Samples.longString 2000 2000).
  right. right. exists "12345678901". split; [reflexivity | ].
  vm_compute. reflexivity.
Defined.

(** *** C7: invariants of the store *)

Lemma validateCaptcha_bounded req now1 now2 st :
  bounded st -> bounded (validateCaptcha req now1 now2 st).2.
Proof.
  intros Hb. unfold validateCaptcha.
  destruct (_ || _ || _); [done |].
  destruct (stringLongerThan _ _); [done |].
  destruct (prop (body req) "captchaId") as [ | | b | n | id | o ]; simpl; try done.
  destruct (st !! id) as [d |] eqn:E; simpl; [| done].
  destruct (expiresAt d <? now1); simpl; [by apply map_Forall_delete |].
  destruct (Z.ltb_spec maxAttempts (attempts d + 1)); simpl.
  { rewrite delete_insert_eq. by apply map_Forall_delete. }
  match goal with |- context [if ?b then _ else _] => destruct b end.
  - rewrite !delete_insert_eq. by apply map_Forall_delete.
  - rewrite !insert_insert_eq. apply map_Forall_insert_2; [simpl; lia | done].
Qed.

Lemma run_bounded st op : bounded st -> bounded (run st op).
Proof.
  intros Hb. destruct op as [req id random draws t1 t2 | req now1 now2 | req | now]; simpl.
  - unfold getCaptcha. destruct (botDetection req) as [score signals].
    destruct (Captcha.generateCaptcha _ _ _) as [[c draws'] |]; simpl; [| done].
    apply map_Forall_insert_2; [simpl; unfold maxAttempts; lia | done].
  - by apply validateCaptcha_bounded.
  - unfold fallback. simpl.
    destruct (truthy _); [| done].
    destruct (lookupKey st _) as [[id d] |]; [by apply map_Forall_delete | done].
  - unfold cleanupCaptchas. intros k d Hk.
    apply map_lookup_filter_Some in Hk as [Hk _]. by apply (Hb k d).
Qed.

Lemma foldl_run_bounded ops st : bounded st -> bounded (foldl run st ops).
Proof.
  revert st. induction ops as [| op ops IH]; intros st Hb; [done |].
  simpl. apply IH. by apply run_bounded.
Qed.


Lemma entries_of_absent_key {A} (l : list (string * A)) id :
  id ∉ l.*1 -> filter (fun kv => kv.1 = id) l = [].
Proof.
  induction l as [| [k v] l IH]; [done |].
  rewrite fmap_cons, not_elem_of_cons. simpl. intros [Hne Hk].
  rewrite filter_cons_False by (simpl; intros Heq; by apply Hne).
  by apply IH.
Qed.

Lemma entries_of_key {A} (l : list (string * A)) id d :
  NoDup l.*1 -> (id, d) ∈ l -> filter (fun kv => kv.1 = id) l = [(id, d)].
Proof.
  induction l as [| [k v] l IH]; intros Hnd Hin; [by apply elem_of_nil in Hin |].
  rewrite fmap_cons in Hnd. apply NoDup_cons in Hnd as [Hk Hnd]. simpl in Hk.
  apply elem_of_cons in Hin as [Heq | Hin].
  - injection Heq as <- <-. rewrite filter_cons_True by done.
    by rewrite entries_of_absent_key.
  - rewrite filter_cons_False; [by apply IH |].
    simpl. intros ->. apply Hk. by apply (list_elem_of_fmap_2 fst) in Hin.
Qed.

(** C7: in every store reached from the empty store by generations,
    validations, discards and sweeps, a challenge that is present has at
    most maxAttempts attempts, and the entries of the store hold exactly
    one challenge under its id. *)
Theorem store_invariant (ops : list Op) (id : string) (d : CaptchaData) :
  runAll ops !! id = Some d ->
  attempts d <= maxAttempts /\
  filter (fun kv => kv.1 = id) (map_to_list (runAll ops)) = [(id, d)].
Proof.
  intros Hs. split.
  - assert (bounded (runAll ops)) as Hb.
    { apply foldl_run_bounded. apply map_Forall_empty. }
    by apply (Hb id d).
  - apply entries_of_key; [apply NoDup_fst_map_to_list |].
    by apply elem_of_map_to_list.
Qed.

Lemma store_invariant_witness :
  let d := set_lastValidation
             {| timestamp := 2000; lv_valid := false;
                userAnswer := JsString "5"; actualAnswer := 2 |}
             (set_attempts 1 Samples.challenge) in
  attempts d <= maxAttempts /\
  filter (fun kv => kv.1 = Samples.uid)
    (map_to_list (runAll [Samples.created; Samples.wrong]))
  = [(Samples.uid, d)].
Proof.
  apply (store_invariant [Samples.created; Samples.wrong] Samples.uid).
  vm_compute. reflexivity.
Defined.

End StoreFacts.

(** ** The rate limiter *)

Module RateFacts.
Import Js Server Spec.

Lemma inWindow_spec start width t :
  inWindow start width t = true <-> start < t <= start + width.
Proof. unfold inWindow. rewrite andb_true_iff, Z.ltb_lt, Z.leb_le. done. Qed.

Lemma rateLimit_positive configKey :
  0 < max (rateLimit configKey) /\ 0 < windowMs (rateLimit configKey).
Proof.
  unfold rateLimit.
  repeat match goal with |- context [if ?b then _ else _] => destruct b end;
    vm_compute; done.
Qed.

Lemma ceilDiv_positive a b : 0 < a -> 0 < b -> 0 < ceilDiv a b.
Proof.
  intros Ha Hb. unfold ceilDiv.
  assert (- a / b < 0) by (apply Z.div_lt_upper_bound; lia). lia.
Qed.

Lemma filter_all {A} (P : A -> Prop) `{forall x, Decision (P x)} (l : list A) :
  Forall P l -> filter P l = l.
Proof.
  induction 1 as [| x l Hx Hl IH]; [done |].
  rewrite filter_cons_True by done. by rewrite IH.
Qed.

(** One check, by the number of timestamps that survive the pruning. *)
Lemma advancedRateLimit_spec req now (rc : gmap string (list Z)) :
  let cfg := rateLimit (configKeyOf (path req)) in
  let key := rateKey req in
  let retained :=
    filter (fun t => now - windowMs cfg < t) (default [] (rc !! key)) in
  advancedRateLimit req now rc =
  if max cfg <=? Z.of_nat (List.length retained) then
    (TooManyRequests
       ((fun first => ceilDiv (first + windowMs cfg - now) 1000) <$> head retained)
       (max cfg) (pretty (windowMs cfg / 60000) ++ " minutes"),
     <[key := retained]> rc)
  else
    (Next (max cfg - Z.of_nat (List.length (app retained [now])))
          (max cfg)
          (default 0 (head (app retained [now])) + windowMs cfg),
     <[key := app retained [now]]> rc).
Proof.
  intros cfg key retained. unfold advancedRateLimit.
  fold cfg. fold key.
  assert (default [] (match rc !! key with
                      | Some _ => rc
                      | None => <[key := []]> rc
                      end !! key) = default [] (rc !! key)) as ->.
  { destruct (rc !! key) eqn:E; [by rewrite E | by rewrite lookup_insert_eq]. }
  fold retained.
  assert (<[key := retained]> (match rc !! key with
                      | Some _ => rc
                      | None => <[key := []]> rc
                      end) = <[key := retained]> rc) as ->.
  { destruct (rc !! key); [done | by rewrite insert_insert_eq]. }
  destruct (max cfg <=? _); [done |]. by rewrite insert_insert_eq.
Qed.

Lemma checkAll_cons req now times (rc : gmap string (list Z)) :
  checkAll req (now :: times) rc
  = let r := advancedRateLimit req now rc in
    let rs := checkAll req times r.2 in
    (r.1 :: rs.1, rs.2).
Proof.
  cbn [checkAll]. destruct (advancedRateLimit req now rc) as [out rc'].
  cbn [fst snd]. by destruct (checkAll req times rc').
Qed.

Lemma checkAll_within_window req start (times : list Z) :
  forall (acc : list Z) (rc : gmap string (list Z)),
  let cfg := rateLimit (configKeyOf (path req)) in
  default [] (rc !! rateKey req) = acc ->
  forallb (inWindow start (windowMs cfg)) (app acc times) = true ->
  Z.of_nat (List.length acc + List.length times) <= max cfg ->
  let rs := checkAll req times rc in
  forallb allowed rs.1 = true /\
  List.length rs.1 = List.length times /\
  default [] (rs.2 !! rateKey req) = app acc times.
Proof.
  induction times as [| now times IH]; intros acc rc cfg Hacc Hw Hlen rs.
  - subst rs. simpl. by rewrite app_nil_r.
  - subst rs. rewrite checkAll_cons. cbv zeta.
    rewrite advancedRateLimit_spec. cbv zeta. fold cfg. rewrite Hacc.
    assert (filter (fun t => now - windowMs cfg < t) acc = acc) as ->.
    { apply filter_all. apply Forall_forall. intros t Ht.
      rewrite forallb_forall in Hw.
      assert (inWindow start (windowMs cfg) t = true) as H1.
      { apply Hw. apply in_or_app. left. by apply list_elem_of_In. }
      assert (inWindow start (windowMs cfg) now = true) as H2.
      { apply Hw. apply in_or_app. right. by left. }
      apply inWindow_spec in H1, H2. simpl. lia. }
    rewrite (proj2 (Z.leb_gt (max cfg) (Z.of_nat (List.length acc))))
      by (simpl in Hlen; lia).
    cbn [fst snd].
    destruct (IH (app acc [now]) (<[rateKey req := app acc [now]]> rc))
      as (Ha & Hl & Hk).
    + by rewrite lookup_insert_eq.
    + by rewrite <- app_assoc.
    + rewrite length_app. cbn [List.length] in *. unfold cfg in *. lia.
    + simpl. rewrite Ha, Hl, Hk. by rewrite <- app_assoc.
Qed.

(** A rejection reports a positive delay. *)
Lemma rejected_retry_positive now width (l : list Z) :
  let retained := filter (fun t => now - width < t) l in
  retained <> [] ->
  exists first, head retained = Some first
                /\ 0 < ceilDiv (first + width - now) 1000.
Proof.
  intros retained Hne.
  destruct retained as [| first rest] eqn:E; [done |].
  exists first. split; [done |].
  assert (first ∈ filter (fun t => now - width < t) l) as Hin.
  { fold retained. rewrite E. by left. }
  apply list_elem_of_filter in Hin as [Hin _].
  apply ceilDiv_positive; lia.
Qed.

(** C5: a check first prunes the timestamps of the key that are not
    later than now minus the window. If at least max of them remain, the
    request is rejected, only the pruned sequence is stored (the
    rejected request adds no timestamp), and the retry-after value,
    derived from the oldest retained timestamp plus the window length,
    is positive. Otherwise now is appended and the request is allowed.
    Hence for a key with no history, max requests made within one
    window are all allowed and the next one within it is rejected with a
    positive retry-after. *)
Theorem rate_limiter_sliding_window :
  (forall req now (requestCounts : gmap string (list Z)),
     let cfg := rateLimit (configKeyOf (path req)) in
     let key := rateKey req in
     let retained :=
       filter (fun t => now - windowMs cfg < t)
              (default [] (requestCounts !! key)) in
     let r := advancedRateLimit req now requestCounts in
     if max cfg <=? Z.of_nat (List.length retained) then
       (exists first retryAfter,
          head retained = Some first /\
          retryAfter = ceilDiv (first + windowMs cfg - now) 1000 /\
          0 < retryAfter /\
          r.1 = TooManyRequests (Some retryAfter) (max cfg)
                  (pretty (windowMs cfg / 60000) ++ " minutes"))
       /\ r.2 = <[key := retained]> requestCounts
     else
       allowed r.1 = true
       /\ r.2 = <[key := app retained [now]]> requestCounts)
  /\
  (forall req start (times : list Z) now (requestCounts : gmap string (list Z)),
     let cfg := rateLimit (configKeyOf (path req)) in
     default [] (requestCounts !! rateKey req) = [] ->
     Z.of_nat (List.length times) = max cfg ->
     forallb (inWindow start (windowMs cfg)) (app times [now]) = true ->
     let rs := checkAll req times requestCounts in
     let r := advancedRateLimit req now rs.2 in
     forallb allowed rs.1 = true /\
     List.length rs.1 = List.length times /\
     allowed r.1 = false /\
     (exists retryAfter,
        r.1 = TooManyRequests (Some retryAfter) (max cfg)
                (pretty (windowMs cfg / 60000) ++ " minutes")
        /\ 0 < retryAfter) /\
     r.2 !! rateKey req = Some times).
Proof.
  split.
  - intros req now rc cfg key retained r. subst r.
    rewrite advancedRateLimit_spec. fold cfg key retained.
    destruct (Z.leb_spec (max cfg) (Z.of_nat (List.length retained))) as [Hfull | Hfree];
      [| done].
    split; [| done].
    destruct (rejected_retry_positive now (windowMs cfg)
                (default [] (rc !! key))) as (first & Hhead & Hpos).
    { fold retained. intros E. rewrite E in Hfull. simpl in Hfull.
      pose proof (rateLimit_positive (configKeyOf (path req))) as [Hmax _].
      unfold cfg in Hfull. lia. }
    fold retained in Hhead. exists first. eexists.
    split; [done |]. split; [reflexivity |]. split; [done |].
    simpl. by rewrite Hhead.
  - intros req start times now rc cfg Hempty Hlen Hw rs r.
    destruct (checkAll_within_window req start times [] rc Hempty)
      as (Hall & Hcount & Hkey).
    { simpl. rewrite forallb_app in Hw. fold cfg.
      by apply andb_true_iff in Hw as [Hw _]. }
    { simpl. fold cfg. lia. }
    fold rs in Hall, Hcount, Hkey. simpl in Hkey.
    split; [done |]. split; [done |].
    assert (filter (fun t => now - windowMs cfg < t) times = times) as Hret.
    { apply filter_all. apply Forall_forall. intros t Ht.
      rewrite forallb_forall in Hw.
      assert (inWindow start (windowMs cfg) t = true) as H1.
      { apply Hw. apply in_or_app. left. by apply list_elem_of_In. }
      assert (inWindow start (windowMs cfg) now = true) as H2.
      { apply Hw. apply in_or_app. right. by left. }
      apply inWindow_spec in H1, H2. simpl. lia. }
    subst r. rewrite advancedRateLimit_spec. fold cfg. rewrite Hkey, Hret.
    rewrite (proj2 (Z.leb_le (max cfg) (Z.of_nat (List.length times)))) by lia.
    simpl.
    destruct (rejected_retry_positive now (windowMs cfg) times)
      as (first & Hhead & Hpos).
    { rewrite Hret. intros ->. simpl in Hlen.
      pose proof (rateLimit_positive (configKeyOf (path req))) as [Hmax _].
      unfold cfg in Hlen. lia. }
    rewrite Hret in Hhead. rewrite Hhead. simpl.
    split; [done |]. split; [by eexists |].
    apply lookup_insert_eq.
Qed.

(** One hundred generation requests at the instants 1..100 pass; the
    next one, at 101, is turned away. *)
Lemma rate_limiter_sliding_window_witness :
  let req := Samples.generation Samples.desktop ∅ in
  let times := seqZ 1 100 in
  let rs := checkAll req times ∅ in
  let r := advancedRateLimit req 101 rs.2 in
  forallb allowed rs.1 = true /\
  List.length rs.1 = List.length times /\
  allowed r.1 = false /\
  (exists retryAfter,
     r.1 = TooManyRequests (Some retryAfter) 100 "15 minutes"
     /\ 0 < retryAfter) /\
  r.2 !! rateKey req = Some times.
Proof.
  apply (proj2 rate_limiter_sliding_window
           (Samples.generation Samples.desktop ∅) 0 (seqZ 1 100) 101 ∅);
    reflexivity.
Defined.

End RateFacts.

(** ** More on the puzzle generator *)

Module GeneratorFacts.
Import Js Captcha Spec Vocabulary CaptchaFacts.

(** *** Decimal answers *)

Lemma pretty_N_char_digit x :
  (x < 10)%N ->
  digitChar (pretty_N_char x) = true /\
  digitValue 10 (pretty_N_char x) = Some (Z.of_N x).
Proof.
  intros Hx.
  assert (x = 0 \/ x = 1 \/ x = 2 \/ x = 3 \/ x = 4 \/ x = 5 \/ x = 6 \/
          x = 7 \/ x = 8 \/ x = 9)%N as Hc by lia.
  repeat destruct Hc as [-> | Hc]; try subst x; split; reflexivity.
Qed.

Lemma allDigits_pretty_N_go x s :
  allDigits s = true -> allDigits (pretty_N_go x s) = true.
Proof.
  revert s. induction (N.lt_wf_0 x) as [x _ IH]; intros s Hs.
  assert (x = 0 \/ 0 < x)%N as [-> | Hx] by lia.
  - by rewrite pretty_N_go_0.
  - rewrite pretty_N_go_step by done. apply IH; [by apply N.div_lt |].
    simpl. rewrite Hs.
    by rewrite (proj1 (pretty_N_char_digit (x `mod` 10)%N ltac:(by apply N.mod_lt))).
Qed.

(** Reading back the digits that [pretty_N_go] puts in front of [s]. *)
Lemma parseDigits_pretty_N_go x :
  exists k, 0 <= k /\ (x = 0%N -> k = 0) /\ forall s acc,
    parseDigits 10 (pretty_N_go x s) acc
    = if bool_decide (x = 0%N) then parseDigits 10 s acc
      else parseDigits 10 s (Some (default 0 acc * 10 ^ k + Z.of_N x)).
Proof.
  induction (N.lt_wf_0 x) as [x _ IH].
  assert (x = 0 \/ 0 < x)%N as [-> | Hx] by lia.
  { exists 0. split; [done |]. split; [done |].
    intros s acc. by rewrite pretty_N_go_0. }
  destruct (IH (x `div` 10)%N) as (k & Hk & Hk0 & Hgo); [by apply N.div_lt |].
  exists (k + 1). split; [lia |]. split; [lia |]. intros s acc.
  rewrite pretty_N_go_step by done. rewrite Hgo.
  rewrite (bool_decide_eq_false_2 (x = 0%N)) by lia.
  destruct (pretty_N_char_digit (x `mod` 10)%N) as [_ Hd]; [by apply N.mod_lt |].
  pose proof (N.div_mod x 10 ltac:(done)) as Hdm.
  case_bool_decide as Hq.
  - cbn [parseDigits]. rewrite Hd. f_equal. f_equal.
    rewrite (Hk0 Hq). rewrite Hq in Hdm. simpl. lia.
  - cbn [parseDigits]. rewrite Hd. f_equal. f_equal. simpl.
    rewrite Z.pow_add_r by lia. lia.
Qed.

Lemma parseDigits_pretty_positive (p : positive) :
  parseDigits 10 (pretty p) None = Some (Z.pos p)
  /\ allDigits (pretty p) = true /\ pretty p <> "".
Proof.
  unfold pretty, pretty_positive, pretty, pretty_N.
  rewrite decide_False by done.
  destruct (parseDigits_pretty_N_go (N.pos p)) as (k & _ & _ & Hgo).
  rewrite Hgo. rewrite bool_decide_eq_false_2 by done. simpl.
  split; [done |]. split; [by apply allDigits_pretty_N_go |].
  intros E. pose proof (Hgo "" (Some 1)) as H1.
  rewrite E in H1. rewrite bool_decide_eq_false_2 in H1 by done.
  simpl in H1. injection H1 as H1.
  pose proof (Hgo "" (Some 2)) as H2.
  rewrite E in H2. rewrite bool_decide_eq_false_2 in H2 by done.
  simpl in H2. injection H2 as H2. 
  assert (0 < 10 ^ k) by (apply Z.pow_pos_nonneg; lia). lia.
Qed.

Lemma digitChar_cases c :
  digitChar c = true ->
  c ∈ ["0"; "1"; "2"; "3"; "4"; "5"; "6"; "7"; "8"; "9"]%char.
Proof.
  destruct c as [[] [] [] [] [] [] [] []]; vm_compute; intros H;
    try discriminate H; set_solver.
Qed.

Lemma parseIntString_split s :
  parseIntString s
  = let '(sign, S1) := signSplit (trimStart s) in
    let '(R, S2) := radixSplit S1 in
    (fun m => sign * m) <$> parseDigits R S2 None.
Proof. reflexivity. Qed.

Ltac digit_cases H :=
  apply digitChar_cases in H; rewrite !elem_of_cons, elem_of_nil in H;
  destruct H as [-> | [-> | [-> | [-> | [-> | [-> | [-> | [-> | [-> | [-> | []]]]]]]]]]].

Lemma splits_of_digits (s : string) :
  allDigits s = true ->
  trimStart s = s /\ signSplit s = (1, s) /\ radixSplit s = (10, s).
Proof.
  destruct s as [| c r]; [done |]. simpl. intros [Hc Hr]%andb_true_iff.
  digit_cases Hc; (split; [reflexivity |]; split; [reflexivity |]);
    try reflexivity.
  destruct r as [| c2 r2]; [done |]. simpl in Hr.
  apply andb_true_iff in Hr as [Hc2 _].
  digit_cases Hc2; reflexivity.
Qed.

Lemma parseIntString_digits (s : string) :
  allDigits s = true ->
  parseIntString s = parseDigits 10 s None /\
  parseIntString (String "-" s) = Z.opp <$> parseDigits 10 s None.
Proof.
  intros Hs. destruct (splits_of_digits s Hs) as (Ht & Hsign & Hradix).
  rewrite !parseIntString_split.
  change (trimStart (String "-" s)) with (String "-" s).
  change (signSplit (String "-" s)) with (-1, s).
  rewrite Ht, Hsign. cbv beta iota zeta. rewrite Hradix.
  destruct (parseDigits 10 s None) as [m |]; simpl; [| done].
  split; f_equal; lia.
Qed.

Lemma parseInt_of_pretty (z : Z) :
  parseInt (JsString (pretty z)) = Some z /\ parseInt (JsNumber z) = Some z.
Proof.
  assert (parseIntString (pretty z) = Some z) as H.
  { destruct z as [| p | p].
    - reflexivity.
    - destruct (parseDigits_pretty_positive p) as (Hp & Hd & _).
      change (pretty (Z.pos p)) with (pretty p).
      by rewrite (proj1 (parseIntString_digits _ Hd)), Hp.
    - destruct (parseDigits_pretty_positive p) as (Hp & Hd & _).
      change (pretty (Z.neg p)) with (String "-" (pretty p)).
      by rewrite (proj2 (parseIntString_digits _ Hd)), Hp. }
  split; exact H.
Qed.

(** *** The range of the answers *)

Section Bounds.
Variable random : nat -> Q.
Hypothesis Hunit : unit_interval random.

Lemma finish_within d ty q a i lo hi :
  lo <= Math_round a <= hi ->
  answerWithin lo hi (finish random d ty (q, a) i).
Proof.
  intros Ha. destruct (finish_spec random d ty q a i) as (q' & j & _ & ->).
  by eexists _, _.
Qed.

(** The operands of a range, named with their bounds. *)
Ltac operand k H :=
  match goal with
  | |- context [Qfloor (random ?i * inject_Z (?max - ?min + 1)) + ?min] =>
      pose proof (randomInRange_bounds random min max i Hunit ltac:(lia)) as H;
      generalize dependent (Qfloor (random i * inject_Z (max - min + 1)) + min);
      intros k H
  end.

Lemma basic_within ty min max i :
  0 <= min <= max ->
  answerWithin
    (if isCase ty "subtraction" then 0
     else if isCase ty "multiplication" then min * min
     else if isCase ty "numberToText" then 0 else min + min)
    (if isCase ty "addition" then max + max
     else if isCase ty "subtraction" then max - min
     else if isCase ty "multiplication" then max * max
     else if isCase ty "numberToText" then 10 else max + max)
    (generateBasicCaptcha random ty (min, max) i).
Proof.
  intros Hr. unfold generateBasicCaptcha. draw.
  operand a Ha. operand b Hb.
  destruct (isCase ty "addition") eqn:E1.
  { draw. eexists _, _. split; [reflexivity |]. simpl.
    destruct (isCase ty "subtraction") eqn:E2.
    { destruct ty as [s |]; [| done]. simpl in E1, E2.
      apply String.eqb_eq in E1, E2. congruence. }
    destruct (isCase ty "multiplication") eqn:E3.
    { destruct ty as [s |]; [| done]. simpl in E1, E3.
      apply String.eqb_eq in E1, E3. congruence. }
    destruct (isCase ty "numberToText") eqn:E4.
    { destruct ty as [s |]; [| done]. simpl in E1, E4.
      apply String.eqb_eq in E1, E4. congruence. }
    lia. }
  destruct (isCase ty "subtraction").
  { draw. eexists _, _. split; [reflexivity |]. simpl. lia. }
  destruct (isCase ty "multiplication").
  { draw. eexists _, _. split; [reflexivity |]. simpl. nia. }
  destruct (isCase ty "numberToText").
  { draw. operand word Hn. eexists _, _. split; [reflexivity |]. simpl. lia. }
  draw. eexists _, _. split; [reflexivity |]. simpl. lia.
Qed.

Lemma answerWithin_weaken lo hi lo' hi' r :
  answerWithin lo hi r -> lo' <= lo -> hi <= hi' -> answerWithin lo' hi' r.
Proof. intros (c & j & -> & H) Hlo Hhi. exists c, j. split; [done | lia]. Qed.

Lemma mixedOperations_within d ty min max i :
  0 <= min <= max ->
  answerWithin (min - max) (Z.max (max + max) (max * max))
    ((j ← randomBelow random (Z.of_nat (List.length ops));
      let op := index ops j in
      num1 ← randomInRange random (min, max);
      num2 ← randomInRange random (min, max);
      match op with
      | Some op =>
          finish random d ty
            ("Calculate: " ++ pretty num1 ++ " " ++ op ++ " " ++ pretty num2,
             inject_Z (evalOp op num1 num2))
      | None => throw
      end) i).
Proof.
  intros Hr. draw.
  destruct (draw_index ops (random i)) as (op & -> & Hop); [apply Hunit.. | done |].
  operand a Ha. operand b Hb.
  apply finish_within. rewrite Math_round_Z.
  unfold ops in Hop. rewrite !elem_of_cons, elem_of_nil in Hop.
  destruct Hop as [-> | [-> | [-> | []]]]; unfold evalOp; simpl; nia.
Qed.

Lemma wordProblem_within d ty i :
  answerWithin (-8) 100
    ((j ← randomBelow random (Z.of_nat (List.length problems));
      let problem := index problems j in
      pA ← randomInRange random (2, 10);
      pB ← randomInRange random (2, 10);
      match problem with
      | Some (q, a) =>
          finish random d ty
            (replace "{b}" (pretty pB) (replace "{a}" (pretty pA) q),
             inject_Z (a pA pB))
      | None => throw
      end) i).
Proof.
  draw.
  destruct (draw_index problems (random i)) as (pr & -> & Hpr); [apply Hunit.. | done |].
  operand a Ha. operand b Hb.
  unfold problems in Hpr. rewrite !elem_of_cons, elem_of_nil in Hpr.
  destruct Hpr as [-> | [-> | [-> | []]]];
    apply finish_within; rewrite Math_round_Z; nia.
Qed.

Lemma complexAlgebra_within d ty i :
  answerWithin 3 8
    ((coeff ← randomInRange random (2, 5);
      constant ← randomInRange random (1, 10);
      x ← randomInRange random (3, 8);
      let result := coeff * x + constant in
      finish random d ty
        ("Solve for x: " ++ pretty coeff ++ "x + " ++ pretty constant
           ++ " = " ++ pretty result,
         (inject_Z (result - constant) / inject_Z coeff)%Q)) i).
Proof.
  draw. cbv zeta. operand coeff Hc. operand constant Hk. operand x Hx.
  apply finish_within. rewrite Math_round_quotient by lia. lia.
Qed.

Lemma logicPuzzle_within d ty i :
  answerWithin 3 10
    ((j ← randomBelow random (Z.of_nat (List.length puzzles));
      match index puzzles j with
      | Some (q, a) => finish random d ty (q, inject_Z a)
      | None => throw
      end) i).
Proof.
  draw.
  destruct (draw_index puzzles (random i)) as (pz & -> & Hpz); [apply Hunit.. | done |].
  unfold puzzles in Hpz. rewrite !elem_of_cons, elem_of_nil in Hpz.
  destruct Hpz as [-> | [-> | []]];
    apply finish_within; rewrite Math_round_Z; lia.
Qed.

(** The kinds of one level, one by one. *)
Lemma config_within d (config : Config) min max lo hi i :
  range config = (min, max) -> 0 <= min <= max ->
  types config <> [] ->
  Forall (fun name =>
    let ty := Some name in
    if isCase ty "mixedOperations"
    then lo <= min - max /\ Z.max (max + max) (max * max) <= hi
    else if isCase ty "wordProblem" then lo <= -8 /\ 100 <= hi
    else if isCase ty "complexAlgebra" then lo <= 3 /\ 8 <= hi
    else if isCase ty "logicPuzzle" then lo <= 3 /\ 10 <= hi
    else
      lo <= (if isCase ty "subtraction" then 0
             else if isCase ty "multiplication" then min * min
             else if isCase ty "numberToText" then 0 else min + min)
      /\ (if isCase ty "addition" then max + max
          else if isCase ty "subtraction" then max - min
          else if isCase ty "multiplication" then max * max
          else if isCase ty "numberToText" then 10 else max + max) <= hi)
    (types config) ->
  answerWithin lo hi
    ((ty ← chooseType random config;
      if isCase ty "mixedOperations" then
        j ← randomBelow random (Z.of_nat (List.length ops));
        let op := index ops j in
        num1 ← randomInRange random (range config);
        num2 ← randomInRange random (range config);
        match op with
        | Some op =>
            finish random d ty
              ("Calculate: " ++ pretty num1 ++ " " ++ op ++ " " ++ pretty num2,
               inject_Z (evalOp op num1 num2))
        | None => throw
        end
      else if isCase ty "wordProblem" then
        j ← randomBelow random (Z.of_nat (List.length problems));
        let problem := index problems j in
        pA ← randomInRange random (2, 10);
        pB ← randomInRange random (2, 10);
        match problem with
        | Some (q, a) =>
            finish random d ty
              (replace "{b}" (pretty pB) (replace "{a}" (pretty pA) q),
               inject_Z (a pA pB))
        | None => throw
        end
      else if isCase ty "complexAlgebra" then
        coeff ← randomInRange random (2, 5);
        constant ← randomInRange random (1, 10);
        x ← randomInRange random (3, 8);
        let result := coeff * x + constant in
        finish random d ty
          ("Solve for x: " ++ pretty coeff ++ "x + " ++ pretty constant
             ++ " = " ++ pretty result,
           (inject_Z (result - constant) / inject_Z coeff)%Q)
      else if isCase ty "logicPuzzle" then
        j ← randomBelow random (Z.of_nat (List.length puzzles));
        match index puzzles j with
        | Some (q, a) => finish random d ty (q, inject_Z a)
        | None => throw
        end
      else
        generateBasicCaptcha random ty (range config)) i).
Proof.
  intros Hrange Hr Hne Hall. rewrite bind_unfold. unfold chooseType at 1.
  rewrite bind_unfold, randomBelow_spec, ret_unfold. rewrite Hrange.
  destruct (draw_index (types config) (random i)) as (name & -> & Hin);
    [apply Hunit.. | done |].
  rewrite Forall_forall in Hall. specialize (Hall name Hin). cbv zeta in Hall.
  destruct (isCase (Some name) "mixedOperations").
  { eapply answerWithin_weaken; [by apply mixedOperations_within | lia..]. }
  destruct (isCase (Some name) "wordProblem").
  { eapply answerWithin_weaken; [apply wordProblem_within | lia..]. }
  destruct (isCase (Some name) "complexAlgebra").
  { eapply answerWithin_weaken; [apply complexAlgebra_within | lia..]. }
  destruct (isCase (Some name) "logicPuzzle").
  { eapply answerWithin_weaken; [apply logicPuzzle_within | lia..]. }
  eapply answerWithin_weaken; [by apply basic_within | lia..].
Qed.

Lemma generateCaptcha_within d i :
  answerWithin (answerRange d).1 (answerRange d).2 (generateCaptcha random d i).
Proof.
  unfold generateCaptcha. cbv zeta.
  destruct (String.eqb_spec d "easy") as [-> | H1].
  { apply (config_within "easy" easy 1 10); [done | lia | done |].
    repeat constructor; vm_compute; done. }
  destruct (String.eqb_spec d "medium") as [-> | H2].
  { apply (config_within "medium" medium 1 15); [done | lia | done |].
    repeat constructor; vm_compute; done. }
  destruct (String.eqb_spec d "hard") as [-> | H3].
  { apply (config_within "hard" hard 1 20); [done | lia | done |].
    repeat constructor; vm_compute; done. }
  destruct (String.eqb_spec d "extreme") as [-> | H4].
  { apply (config_within "extreme" extreme 5 30); [done | lia | done |].
    repeat constructor; vm_compute; done. }
  apply String.eqb_neq in H1, H2, H3, H4.
  unfold answerRange, difficulties. rewrite H1, H2, H3, H4.
  apply (config_within d medium 1 15); [done | lia | done |].
  repeat constructor; vm_compute; done.
Qed.
End Bounds.


(** X1: the decimal rendering of an integer reads back as that integer,
    whether it is submitted as a string or as a JSON number. The bound
    keeps the statement to the integers that a JavaScript number holds
    exactly and prints in plain decimal. *)
Theorem parseInt_reads_decimal (z : Z) :
  safeInteger z = true ->
  parseInt (JsString (pretty z)) = Some z /\ parseInt (JsNumber z) = Some z.
Proof. intros _. apply parseInt_of_pretty. Qed.

(** X2: on an integer, sent as a number or as its decimal string,
    [validateCaptchaInput] accepts exactly the values from 0 to 1000; a
    negative answer of the mixed-operations kind is refused by it. *)
Theorem validateCaptchaInput_range (n : Z) :
  safeInteger n = true ->
  validateCaptchaInput (JsNumber n) = (0 <=? n) && (n <=? 1000)
  /\ validateCaptchaInput (JsString (pretty n)) = (0 <=? n) && (n <=? 1000).
Proof.
  intros _. unfold validateCaptchaInput.
  by rewrite (proj1 (parseInt_of_pretty n)), (proj2 (parseInt_of_pretty n)).
Qed.

Lemma short_answers a :
  -19 <= a <= 400 -> (String.length (pretty a) <= 4)%nat.
Proof.
  intros Ha.
  assert (Forall (fun a => (String.length (pretty a) <= 4)%nat) (seqZ (-19) 420)) as HF.
  { apply (bool_decide_unpack _). vm_compute. exact I. }
  rewrite Forall_forall in HF. apply HF. apply elem_of_seqZ. lia.
Qed.

Lemma answerRange_bounds d :
  -19 <= (answerRange d).1 /\ (answerRange d).2 <= 400.
Proof.
  unfold answerRange.
  repeat match goal with |- context [if ?b then _ else _] => destruct b end;
    simpl; lia.
Qed.

(** *** The distortion of a question *)

Lemma bind_ret_r {A} (m : M A) i : (m ≫= mret) i = m i.
Proof. rewrite bind_unfold. by destruct (m i) as [[a j] |]. Qed.

Lemma chars_app s t : chars (s ++ t) = (chars s ++ chars t)%list.
Proof. induction s as [| c s IH]; [done |]. simpl. by rewrite <- IH. Qed.

Lemma length_chars s : List.length (chars s) = String.length s.
Proof. induction s as [| c s IH]; [done |]. simpl. by rewrite IH. Qed.

Lemma leetMap_of_leetChar c :
  isLeetChar c = true ->
  exists d, leetMap (toLowerChar c) = Some (String d EmptyString).
Proof.
  unfold isLeetChar. intros H. apply bool_decide_eq_true in H.
  rewrite !elem_of_cons, elem_of_nil in H.
  destruct H as [-> | [-> | [-> | [-> | [-> | []]]]]]; by eexists.
Qed.

Section Distortion.
Variable random : nat -> Q.

Lemma leetspeak_spec s i :
  exists t, leetspeak random s i = Some (t, (i + leetCount s)%nat)
            /\ Forall2 (fun c c' => leetOf c c' = true) (chars s) (chars t).
Proof.
  revert i. induction s as [| c r IH]; intros i.
  - exists "". simpl. unfold leetCount. simpl. rewrite Nat.add_0_r.
    split; [done | constructor].
  - cbn [leetspeak]. unfold leetCount. cbn [chars List.filter].
    destruct (isLeetChar c) eqn:E.
    + draw. destruct (IH (S i)) as (t & -> & HF). draw.
      destruct (leetMap_of_leetChar c E) as (dgt & Hd).
      eexists. split.
      { f_equal. f_equal. unfold leetCount. simpl. lia. }
      rewrite chars_app.
      destruct (Qltb (random i) (3 # 10)).
      * rewrite Hd. simpl. constructor; [| done].
        unfold leetOf. rewrite Hd, E. rewrite Ascii.eqb_refl. apply orb_true_r.
      * simpl. constructor; [| done].
        unfold leetOf. by rewrite Ascii.eqb_refl.
    + draw. destruct (IH i) as (t & -> & HF). draw.
      eexists. split; [reflexivity |]. simpl. constructor; [| done].
      unfold leetOf. by rewrite Ascii.eqb_refl.
Qed.

Lemma asciiOnly_app s t : asciiOnly (s ++ t) = asciiOnly s ++ asciiOnly t.
Proof.
  induction s as [| c s IH]; [done |]. simpl.
  destruct (isAscii c); simpl; by rewrite IH.
Qed.

Lemma unicode_spec s i :
  exists t, unicode random s i = Some (t, (i + String.length s)%nat)
            /\ asciiOnly t = asciiOnly s.
Proof.
  revert i. induction s as [| c r IH]; intros i.
  - exists "". simpl. by rewrite Nat.add_0_r.
  - cbn [unicode]. draw. destruct (IH (S i)) as (t & -> & Ht). draw.
    eexists. split.
    { f_equal. f_equal. simpl. lia. }
    rewrite asciiOnly_app, Ht.
    destruct (Qltb (random i) (1 # 10)).
    + rewrite asciiOnly_app. change (asciiOnly zeroWidthSpace) with "".
      cbn [asciiOnly]. by destruct (isAscii c).
    + cbn [asciiOnly]. by destruct (isAscii c).
Qed.

Lemma applyDistortion_hard_eq text i :
  applyDistortion random text "hard" i = leetspeak random text i.
Proof.
  change (applyDistortion random text "hard" i)
    with ((leetspeak random text ≫= mret) i).
  apply bind_ret_r.
Qed.

Lemma applyDistortion_extreme_eq text i :
  applyDistortion random text "extreme" i
  = (t ← leetspeak random text; unicode random t) i.
Proof.
  change (applyDistortion random text "extreme" i)
    with ((leetspeak random text
           ≫= fun t => unicode random t ≫= mret) i).
  rewrite !bind_unfold. destruct (leetspeak random text i) as [[a j] |]; [| done].
  apply bind_ret_r.
Qed.

(** X4: at every difficulty other than "hard" and "extreme" the
    distortion returns the text as it is and makes no draw. *)
Theorem applyDistortion_plain text d i :
  d <> "hard" -> d <> "extreme" ->
  applyDistortion random text d i = Some (text, i).
Proof.
  intros Hh He. unfold applyDistortion, distortions.
  apply String.eqb_neq in Hh, He. rewrite Hh, He.
  by repeat match goal with |- context [if ?b then _ else _] => destruct b end.
Qed.

(** X5: at "hard" the distortion makes one draw per character among
    a, e, i, o, s (either case), keeps the length of the text, and
    leaves every character as it is or, for those letters, replaces it
    by its digit; digits and operators are never altered. *)
Theorem applyDistortion_hard_substitutes text i :
  exists t,
    applyDistortion random text "hard" i = Some (t, (i + leetCount text)%nat)
    /\ String.length t = String.length text
    /\ Forall2 (fun c c' => leetOf c c' = true) (chars text) (chars t).
Proof.
  rewrite applyDistortion_hard_eq.
  destruct (leetspeak_spec text i) as (t & Ht & HF).
  exists t. split; [done |]. split; [| done].
  rewrite <- !length_chars. symmetry. by eapply Forall2_length.
Qed.

(** X6: at "extreme" the distortion is that of "hard" followed by one
    draw per character of its result, and it only inserts zero-width
    spaces: without its non-ASCII bytes the result is the "hard"
    rendering. *)
Theorem applyDistortion_extreme_over_hard text i :
  exists t1 t k,
    applyDistortion random text "hard" i = Some (t1, k)
    /\ applyDistortion random text "extreme" i
       = Some (t, (k + String.length t1)%nat)
    /\ asciiOnly t = asciiOnly t1.
Proof.
  rewrite applyDistortion_hard_eq, applyDistortion_extreme_eq.
  destruct (leetspeak_spec text i) as (t1 & Ht1 & _).
  destruct (unicode_spec t1 (i + leetCount text)%nat) as (t & Ht & Ha).
  exists t1, t, (i + leetCount text)%nat.
  split; [done |]. split; [| done].
  by rewrite bind_unfold, Ht1.
Qed.
End Distortion.

(** X3: for a random source within its contract, a generation at any
    difficulty succeeds and its answer lies in the range of the level:
    0..20 at "easy", 0..225 at "medium" (and at an unknown level),
    -19..400 at "hard", 3..60 at "extreme". *)
Theorem generateCaptcha_answer_range (random : nat -> Q) (d : string) (i : nat) :
  unit_interval random ->
  answerWithin (answerRange d).1 (answerRange d).2 (generateCaptcha random d i).
Proof. intros Hunit. by apply generateCaptcha_within. Qed.

Lemma generateCaptcha_answer_range_witness :
  answerWithin (-19) 400
    (generateCaptcha (Samples.oracle Samples.negativeDraws) "hard" 0%nat).
Proof.
  apply (generateCaptcha_answer_range
           (Samples.oracle Samples.negativeDraws) "hard" 0%nat).
  apply oracle_unit_interval. reflexivity.
Defined.

Lemma parseInt_reads_decimal_witness :
  parseInt (JsString (pretty (-19))) = Some (-19)
  /\ parseInt (JsNumber (-19)) = Some (-19).
Proof. apply (parseInt_reads_decimal (-19)). reflexivity. Defined.

Lemma validateCaptchaInput_range_witness :
  validateCaptchaInput (JsNumber (-19)) = (0 <=? -19) && (-19 <=? 1000)
  /\ validateCaptchaInput (JsString (pretty (-19)))
     = (0 <=? -19) && (-19 <=? 1000).
Proof. apply (validateCaptchaInput_range (-19)). reflexivity. Defined.

Lemma applyDistortion_plain_witness :
  applyDistortion (Samples.oracle []) "What is 3 + 4?" "medium" 0%nat
  = Some ("What is 3 + 4?", 0%nat).
Proof.
  apply (applyDistortion_plain (Samples.oracle []) "What is 3 + 4?" "medium");
    discriminate.
Defined.

(** X7: for a random source within its contract, a generation at any
    difficulty succeeds, and its answer is the defining operation of a
    puzzle over the operands that its question shows, the question being
    the rendering of that puzzle or its distortion. *)
Theorem generateCaptcha_answer_matches_question
    (random : nat -> Q) (d : string) (i : nat) :
  unit_interval random ->
  round_trip random d (generateCaptcha random d i).
Proof. intros Hunit. by apply generateCaptcha_round_trip. Qed.

Lemma generateCaptcha_answer_matches_question_witness :
  round_trip (Samples.oracle Samples.negativeDraws) "hard"
    (generateCaptcha (Samples.oracle Samples.negativeDraws) "hard" 0%nat).
Proof.
  apply (generateCaptcha_answer_matches_question
           (Samples.oracle Samples.negativeDraws) "hard" 0%nat).
  apply oracle_unit_interval. reflexivity.
Defined.

End GeneratorFacts.
